(** * Document processing pipeline: the queue-driven worker and its store

    A shallow embedding of
    - [enums.ts], [document.entity.ts], [create-document.dto.ts], [config.ts],
    - [ocr-result.schema.ts] (the zod schema checked by the validation handler),
    - [documents.service.ts] ([DocumentsService]),
    - [documents-processing.controller.ts] ([DocumentsProcessingController]),
    followed by the properties of the pipeline state machine and of its
    message-acknowledgment contract.

    Asynchronous code is sequenced the way the source awaits it: every
    [await] is a bind of the monad [M] below.  The database, the RabbitMQ
    client and the channel of the message being handled are fields of one
    [World]; what they are asked to do is appended to its [trace]. *)

From Stdlib Require Import ZArith QArith.
From stdpp Require Import base option list strings pretty gmap.

Local Open Scope string_scope.
Local Open Scope Z_scope.
Local Open Scope list_scope.

(* ===================================================================== *)
(** ** enums.ts *)

Inductive DocumentStatus := UPLOADED | PROCESSING | VALIDATED | FAILED.

Inductive DocumentEventType := DOCUMENT_PROCESSING | DOCUMENT_VALIDATION.

#[global] Instance DocumentStatus_eq_dec : EqDecision DocumentStatus.
Proof. solve_decision. Defined.

#[global] Instance DocumentEventType_eq_dec : EqDecision DocumentEventType.
Proof. solve_decision. Defined.

(* ===================================================================== *)
(** ** JS numbers

    What a [float] column and a value of type [number] can hold, as far as
    this code tells the values apart: a finite value (a rational here: only
    its order matters), [NaN], or an infinity.  Rounding is not modelled. *)
Inductive number :=
  | Finite (q : Q)
  | NaN
  | Infinite (negative : bool).

(* ===================================================================== *)
(** ** document.entity.ts

    Nullable columns are [option]s ([None] is SQL NULL / JS [null]);
    timestamps are ticks of the store's clock. *)

Record Document := mkDocument {
  id : string;
  filename : string;
  path : string;
  status : DocumentStatus;
  ocr_text : option string;
  ocr_confidence : option number;
  ocr_language : option string;
  validation_errors : option string;
  createdAt : Z;
  updatedAt : Z
}.

Definition with_updatedAt (t : Z) (d : Document) : Document :=
  {| id := id d; filename := filename d; path := path d; status := status d;
     ocr_text := ocr_text d; ocr_confidence := ocr_confidence d;
     ocr_language := ocr_language d; validation_errors := validation_errors d;
     createdAt := createdAt d; updatedAt := t |}.

(** Modelled from the spec: [dto/update-document.dto.ts] is not among the
    sources.  The store write takes "partialFields": every field of
    [CreateDocumentDto] made optional, which is also all the controller ever
    passes.  The outer [option] says whether the key is present in the
    object; [validation_errors] may be present with value [null]. *)
Record UpdateDocumentDto := mkUpdate {
  dto_filename : option string;
  dto_path : option string;
  dto_status : option DocumentStatus;
  dto_ocr_text : option string;
  dto_ocr_confidence : option number;
  dto_ocr_language : option string;
  dto_validation_errors : option (option string)
}.

(** The empty object literal [{}]. *)
Definition no_fields : UpdateDocumentDto :=
  {| dto_filename := None; dto_path := None; dto_status := None;
     dto_ocr_text := None; dto_ocr_confidence := None;
     dto_ocr_language := None; dto_validation_errors := None |}.

(** [Object.assign(document, updateDocumentDto)]: every key present in the
    source object overwrites the target's, the others are left alone. *)
Definition Object_assign (document : Document) (dto : UpdateDocumentDto) : Document :=
  {| id := id document;
     filename := default (filename document) (dto_filename dto);
     path := default (path document) (dto_path dto);
     status := default (status document) (dto_status dto);
     ocr_text := match dto_ocr_text dto with
                 | Some t => Some t
                 | None => ocr_text document
                 end;
     ocr_confidence := match dto_ocr_confidence dto with
                       | Some c => Some c
                       | None => ocr_confidence document
                       end;
     ocr_language := match dto_ocr_language dto with
                     | Some l => Some l
                     | None => ocr_language document
                     end;
     validation_errors := default (validation_errors document)
                                  (dto_validation_errors dto);
     createdAt := createdAt document;
     updatedAt := updatedAt document |}.

(* ===================================================================== *)
(** ** config.ts (defaults, no environment override) *)

Definition MAX_FILE_SIZE : Z := 10 * 1024 * 1024.

Definition ALLOWED_MIME_TYPES : list string :=
  ["application/pdf"; "image/jpeg"; "image/png"; "image/tiff"; "image/bmp";
   "text/plain"].

(* ===================================================================== *)
(** ** ocr-result.schema.ts

    [z.object({ text: z.string(), confidence: z.number(), language:
    z.string() })], with the messages of zod 3.  The handler feeds it the
    three nullable columns, so a field is either a value of the column's
    type or [null].  [z.string()] takes every string; [z.number()] takes
    every number except [NaN] (the infinities pass: the schema has no
    [.finite()]).  zod reports one issue per refused field, in the order of
    the schema's keys. *)

Record OCRResult := mkOCR {
  text : string;
  confidence : number;
  language : string
}.

Record OCRInput := mkInput {
  in_text : option string;
  in_confidence : option number;
  in_language : option string
}.

Record ZodIssue := mkIssue {
  issue_path : string;
  message : string
}.

Definition z_string (key : string) (v : option string) : list ZodIssue :=
  match v with
  | Some _ => []
  | None => [ {| issue_path := key; message := "Expected string, received null" |} ]
  end.

Definition z_number (key : string) (v : option number) : list ZodIssue :=
  match v with
  | Some NaN => [ {| issue_path := key; message := "Expected number, received nan" |} ]
  | Some _ => []
  | None => [ {| issue_path := key; message := "Expected number, received null" |} ]
  end.

Inductive SafeParseReturn :=
  | ParseSuccess (data : OCRResult)
  | ParseFailure (issues : list ZodIssue).

Definition OCRResultSchema_issues (input : OCRInput) : list ZodIssue :=
  z_string "text" (in_text input)
  ++ z_number "confidence" (in_confidence input)
  ++ z_string "language" (in_language input).

Definition OCRResultSchema_safeParse (input : OCRInput) : SafeParseReturn :=
  match in_text input, in_confidence input, in_language input,
        OCRResultSchema_issues input with
  | Some t, Some c, Some l, [] =>
      ParseSuccess {| text := t; confidence := c; language := l |}
  | _, _, _, issues => ParseFailure issues
  end.

Definition success (r : SafeParseReturn) : bool :=
  match r with ParseSuccess _ => true | ParseFailure _ => false end.

Definition error_issues (r : SafeParseReturn) : list ZodIssue :=
  match r with ParseSuccess _ => [] | ParseFailure issues => issues end.

(** [Array.prototype.join]. *)
Fixpoint join (sep : string) (l : list string) : string :=
  match l with
  | [] => ""
  | [x] => x
  | x :: rest => x +:+ sep +:+ join sep rest
  end.

(* ===================================================================== *)
(** ** The world a handler runs in *)

Inductive Exception :=
  | NotFoundException (msg : string)
  | BadRequestException (msg : string)
  | InfrastructureError (msg : string).

(** What the collaborators were asked to do, oldest first.  A publish is
    two things: the call [rabbitClient.emit], which hands the event to the
    client and returns at once, and its outcome, which only the Observable
    that [emit] returns would tell. *)
Inductive Event :=
  | Saved (d : Document)                                   (* repository.save resolved with [d] *)
  | Removed (k : string)                                   (* repository.remove *)
  | Emitted (pattern : DocumentEventType) (documentId : string)  (* rabbitClient.emit called *)
  | Published (pattern : DocumentEventType) (documentId : string)     (* the broker took the event *)
  | PublishFailed (pattern : DocumentEventType) (documentId : string) (* the event was lost *)
  | Ack                                                    (* channel.ack(originalMsg) *)
  | Nack (allUpTo requeue : bool)                          (* channel.nack(originalMsg, _, _) *)
  | LoggedError (e : Exception).                           (* logger.error in a catch *)

(** What the rest of the system does to the store while a handler is
    suspended in one of its repository calls: nothing, make the call fail
    (connection lost, timeout), or delete a record through the HTTP API. *)
Inductive EnvAction :=
  | Quiet
  | Fault
  | Remove (k : string).

Record World := mkWorld {
  repo : gmap string Document;
  env : list EnvAction;
  clock : Z;
  trace : list Event
}.

Definition M (A : Type) : Type := World → (Exception + A) * World.

#[global] Instance M_ret : MRet M := λ A a w, (inr a, w).

#[global] Instance M_bind : MBind M := λ A B k m w,
  match m w with
  | (inr a, w') => k a w'
  | (inl e, w') => (inl e, w')
  end.

Definition throw {A} (e : Exception) : M A := λ w, (inl e, w).

(** [try { body } catch (error) { handler }]. *)
Definition try_catch {A} (body : M A) (handler : Exception → M A) : M A :=
  λ w, match body w with
       | (inr a, w') => (inr a, w')
       | (inl e, w') => handler e w'
       end.

Definition log_event (ev : Event) : M unit :=
  λ w, (inr tt, {| repo := repo w; env := env w; clock := clock w;
                   trace := trace w ++ [ev] |}).

(** The events a computation appended when run from [w]. *)
Definition new_events {A} (m : M A) (w : World) : list Event :=
  drop (length (trace w)) (trace (m w).2).

(* ===================================================================== *)
(** ** The TypeORM repository of [Document]

    Each repository call is a suspension point: the next [EnvAction] of the
    schedule happens right before the call takes effect. *)

Definition set_env (l : list EnvAction) (w : World) : World :=
  {| repo := repo w; env := l; clock := clock w; trace := trace w |}.

Definition store_access : M unit :=
  λ w, match env w with
       | [] => (inr tt, w)
       | Quiet :: rest => (inr tt, set_env rest w)
       | Fault :: rest =>
           (inl (InfrastructureError "Connection terminated unexpectedly"),
            set_env rest w)
       | Remove k :: rest =>
           (inr tt, {| repo := delete k (repo w); env := rest;
                       clock := clock w; trace := trace w |})
       end.

Definition gets {A} (f : World → A) : M A := λ w, (inr (f w), w).

(** The write of one row: the row, the clock tick and the trace entry. *)
Definition write_row (saved : Document) : M unit :=
  λ w, (inr tt, {| repo := <[id saved := saved]> (repo w);
                   env := env w;
                   clock := clock w + 1;
                   trace := trace w ++ [Saved saved] |}).

Definition delete_row (k : string) : M unit :=
  λ w, (inr tt, {| repo := delete k (repo w);
                   env := env w;
                   clock := clock w;
                   trace := trace w ++ [Removed k] |}).

(** [repository.findOne({ where: { id } })] resolves with the row or [null]. *)
Definition repository_findOne (k : string) : M (option Document) :=
  store_access ;; gets (λ w, repo w !! k).

(** [repository.save(document)] for an entity that carries its primary key:
    the row is written whole under that key and [@UpdateDateColumn] is
    stamped; a failed call writes nothing.  TypeORM issues no UPDATE when no
    column differs from the row it loaded, and then leaves the stamp alone:
    for a save that changes no column the stamp written here is an upper
    bound, and what is stated about such a save leaves its stamp open. *)
Definition repository_save (document : Document) : M Document :=
  store_access ;;
  now ← gets clock;
  let saved := with_updatedAt now document in
  write_row saved ;;
  mret saved.

(** [repository.save(repository.create({ filename, path, status }))]: the
    database generates the uuid [uuid] and stamps both date columns; the
    nullable columns start NULL. *)
Definition repository_insert (uuid fname fpath : string) (st : DocumentStatus)
  : M Document :=
  store_access ;;
  now ← gets clock;
  let saved := {| id := uuid; filename := fname; path := fpath;
                  status := st; ocr_text := None; ocr_confidence := None;
                  ocr_language := None; validation_errors := None;
                  createdAt := now; updatedAt := now |} in
  write_row saved ;;
  mret saved.

Definition repository_remove (document : Document) : M unit :=
  store_access ;; delete_row (id document).

(** [rabbitClient.emit(pattern, { documentId })], the Observable it returns
    being dropped, as both callers do: the publish is issued, and nothing in
    the caller learns whether or when it completes. *)
Definition rabbitClient_emit (pattern : DocumentEventType) (documentId : string)
  : M unit :=
  log_event (Emitted pattern documentId).

(** [logger.error(..., error.message, error.stack)] in a [catch]; what is
    caught is one of the [Exception]s above, an [Error] object. *)
Definition logger_error (e : Exception) : M unit := log_event (LoggedError e).

(* ===================================================================== *)
(** ** documents.service.ts *)

Module DocumentsService.

Definition findOne (k : string) : M Document :=
  document ← repository_findOne k;
  match document with
  | None => throw (NotFoundException ("Document with ID " +:+ k +:+ " not found"))
  | Some document => mret document
  end.

Definition update (k : string) (updateDocumentDto : UpdateDocumentDto)
  : M Document :=
  document ← findOne k;
  repository_save (Object_assign document updateDocumentDto).

Definition remove (k : string) : M unit :=
  document ← findOne k;
  repository_remove document.

Record MulterFile := mkFile {
  originalname : string;
  multer_filename : string;
  mimetype : string;
  size : Z
}.

(** [uuid] is the key the database will generate for the new row. *)
Definition uploadFile (file : option MulterFile) (uuid : string) : M Document :=
  match file with
  | None => throw (BadRequestException "No file uploaded")
  | Some file =>
      if negb (bool_decide (mimetype file ∈ ALLOWED_MIME_TYPES)) then
        throw (BadRequestException
                 ("File type " +:+ mimetype file
                  +:+ " is not supported. Allowed types: "
                  +:+ join ", " ALLOWED_MIME_TYPES))
      else if bool_decide (MAX_FILE_SIZE < size file) then
        throw (BadRequestException
                 ("File size exceeds "
                  +:+ pretty (MAX_FILE_SIZE / (1024 * 1024)) +:+ "MB limit"))
                 (* [Math.round]: the default size is a whole number of MB *)
      else
        try_catch
          (savedDocument ← repository_insert uuid (originalname file)
                                             (multer_filename file) UPLOADED;
           rabbitClient_emit DOCUMENT_PROCESSING (id savedDocument) ;;
           mret savedDocument)
          (λ error, logger_error error ;;
                    throw (BadRequestException "Failed to save document record"))
  end.

(** The development stub: always the same result (the 500 ms timer only
    delays it). *)
Definition simulateOCR : M OCRResult :=
  mret {| text := "This is a simulated OCR result.";
          confidence := Finite 0.98%Q;
          language := "en" |}.

Definition emitValidationEvent (documentId : string) : M unit :=
  rabbitClient_emit DOCUMENT_VALIDATION documentId.

End DocumentsService.

(* ===================================================================== *)
(** ** documents-processing.controller.ts

    The controller is handed its service by injection and only uses four of
    its methods.  At run time the value [findOne] resolves with is whatever
    the injected object returns, which is why the handlers test it against
    [null]: the interface lets the lookup answer [None]. *)

Record DocumentsServiceApi := mkApi {
  api_findOne : string → M (option Document);
  api_update : string → UpdateDocumentDto → M Document;
  api_simulateOCR : M OCRResult;
  api_emitValidationEvent : string → M unit
}.

(** The provider registered for the application, [DocumentsService]: its
    [findOne] resolves with a document or rejects, never with [null]. *)
Definition documentsService : DocumentsServiceApi :=
  {| api_findOne := λ k, d ← DocumentsService.findOne k; mret (Some d);
     api_update := DocumentsService.update;
     api_simulateOCR := DocumentsService.simulateOCR;
     api_emitValidationEvent := DocumentsService.emitValidationEvent |}.

Record Payload := mkPayload { documentId : string }.

(** [channel.ack] and [channel.nack] on the channel of the message being
    handled, a channel that is open for the whole run. *)
Definition channel_ack : M unit := log_event Ack.

Definition channel_nack (allUpTo requeue : bool) : M unit :=
  log_event (Nack allUpTo requeue).

Section Controller.

Variable svc : DocumentsServiceApi.

Definition handleProcessing (data : Payload) : M unit :=
  try_catch
    (let documentId := documentId data in
     document ← api_findOne svc documentId;
     match document with
     | None => channel_ack
     | Some _ =>
         api_update svc documentId
           {| dto_filename := None; dto_path := None;
              dto_status := Some PROCESSING;
              dto_ocr_text := None; dto_ocr_confidence := None;
              dto_ocr_language := None; dto_validation_errors := None |} ;;
         ocrResult ← api_simulateOCR svc;
         api_update svc documentId
           {| dto_filename := None; dto_path := None;
              dto_status := Some VALIDATED;
              dto_ocr_text := Some (text ocrResult);
              dto_ocr_confidence := Some (confidence ocrResult);
              dto_ocr_language := Some (language ocrResult);
              dto_validation_errors := None |} ;;
         api_emitValidationEvent svc documentId ;;
         channel_ack
     end)
    (λ error, logger_error error ;; channel_nack false true).

Definition handleValidation (data : Payload) : M unit :=
  try_catch
    (let documentId := documentId data in
     document ← api_findOne svc documentId;
     match document with
     | None => channel_ack
     | Some document =>
         let validatedResult :=
           OCRResultSchema_safeParse
             {| in_text := ocr_text document;
                in_confidence := ocr_confidence document;
                in_language := ocr_language document |} in
         (if negb (success validatedResult) then
            api_update svc documentId
              {| dto_filename := None; dto_path := None;
                 dto_status := Some FAILED;
                 dto_ocr_text := None; dto_ocr_confidence := None;
                 dto_ocr_language := None;
                 dto_validation_errors :=
                   Some (Some (join "," (message <$> error_issues validatedResult))) |}
          else
            api_update svc documentId
              {| dto_filename := None; dto_path := None;
                 dto_status := Some VALIDATED;
                 dto_ocr_text := None; dto_ocr_confidence := None;
                 dto_ocr_language := None;
                 dto_validation_errors := Some None |}) ;;
         channel_ack
     end)
    (λ error, logger_error error ;; channel_nack false true).

End Controller.

(* ===================================================================== *)
(** * Reasoning about runs *)

(** The store is keyed by the primary key of its rows. *)
Definition keyed (m : gmap string Document) : Prop :=
  map_Forall (λ k d, id d = k) m.

(** The rest of the system leaves the store alone. *)
Definition quiescent (l : list EnvAction) : Prop := Forall (λ a, a = Quiet) l.

(** The rest of the system deletes nothing (calls may still fail). *)
Definition calm (l : list EnvAction) : Prop :=
  Forall (λ a, a = Quiet ∨ a = Fault) l.

Definition is_infrastructure (e : Exception) : bool :=
  match e with InfrastructureError _ => true | _ => false end.

Lemma quiescent_calm l : quiescent l → calm l.
Proof. unfold quiescent, calm. intros H. eapply Forall_impl; [exact H|]. auto. Qed.

Lemma new_events_app {A} (m : M A) w evs :
  trace (m w).2 = trace w ++ evs → new_events m w = evs.
Proof. intros H. unfold new_events. rewrite H. apply drop_app_length. Qed.

(** [env_step w w1]: between [w] and [w1] only the rest of the system
    acted: nothing was written, logged or sent, rows may have been deleted. *)
Definition env_step (w w1 : World) : Prop :=
  trace w1 = trace w ∧ clock w1 = clock w ∧ repo w1 ⊆ repo w ∧
  (calm (env w) → repo w1 = repo w ∧ calm (env w1)) ∧
  (quiescent (env w) → quiescent (env w1)).

Lemma env_step_trans w w1 w2 : env_step w w1 → env_step w1 w2 → env_step w w2.
Proof.
  unfold env_step. intros (Ht & Hc & Hs & Hcalm & Hq) (Ht' & Hc' & Hs' & Hcalm' & Hq').
  split_and!; try congruence.
  - by etrans.
  - intros H. destruct (Hcalm H) as [E1 H1]. destruct (Hcalm' H1) as [E2 H2].
    split; [congruence|done].
  - auto.
Qed.

Lemma keyed_subseteq (m m' : gmap string Document) :
  m' ⊆ m → keyed m → keyed m'.
Proof.
  unfold keyed. intros Hs Hk k d Hd. apply (Hk k d).
  eapply lookup_weaken; eauto.
Qed.

Lemma store_access_spec w r w1 :
  store_access w = (r, w1) →
  env_step w w1 ∧
  (quiescent (env w) → r = inr tt) ∧
  (∀ e, r = inl e → is_infrastructure e = true ∧ head (env w) = Some Fault).
Proof.
  unfold store_access, env_step, calm, quiescent. intros H.
  destruct (env w) as [|[| |k'] rest] eqn:E; simplify_eq/=.
  - rewrite E. split_and!; try done.
  - split_and!; try done.
    + intros Hc. apply Forall_cons in Hc as [_ Hc]. done.
    + intros Hc. apply Forall_cons in Hc as [_ Hc]. done.
  - split_and!; try done.
    + intros Hc. apply Forall_cons in Hc as [_ Hc]. done.
    + intros Hc. apply Forall_cons in Hc as [_ Hc]. done.
    + intros Hc. apply Forall_cons in Hc as [? _]. done.
    + intros e [= <-]. done.
  - split_and!; try done.
    + apply delete_subseteq.
    + intros Hc. apply Forall_cons in Hc as [[?|?] _]; discriminate.
    + intros Hc. apply Forall_cons in Hc as [? _]. done.
Qed.

(** *** [DocumentsService.findOne] *)

Lemma findOne_spec k w r w1 :
  DocumentsService.findOne k w = (r, w1) →
  env_step w w1 ∧
  match r with
  | inr d => repo w1 !! k = Some d
  | inl e =>
      (is_infrastructure e = true ∧ head (env w) = Some Fault)
      ∨ (e = NotFoundException ("Document with ID " +:+ k +:+ " not found")
         ∧ repo w1 !! k = None)
  end ∧
  (quiescent (env w) → is_Some (repo w !! k) → ∃ d, r = inr d).
Proof.
  unfold DocumentsService.findOne, repository_findOne, gets, throw.
  unfold mbind, M_bind, mret, M_ret. intros H.
  destruct (store_access w) as [[e|[]] w0] eqn:Ha;
    apply store_access_spec in Ha as (Hstep & Hq & He).
  - simplify_eq. split_and!; [done|left; by apply He|].
    intros Hqu. specialize (Hq Hqu). done.
  - destruct (repo w0 !! k) as [d|] eqn:Hd; simplify_eq.
    + split_and!; [done|done|eauto].
    + split_and!; [done|right; done|].
      intros Hqu [d Hd']. destruct Hstep as (_ & _ & _ & Hcalm & _).
      destruct (Hcalm (quiescent_calm _ Hqu)) as [Hr _]. congruence.
Qed.

(** *** [DocumentsService.update] *)

Lemma update_spec k dto w r w2 :
  DocumentsService.update k dto w = (r, w2) →
  match r with
  | inl e =>
      env_step w w2 ∧
      (is_infrastructure e = true
       ∨ (e = NotFoundException ("Document with ID " +:+ k +:+ " not found")
          ∧ repo w2 !! k = None))
  | inr d' =>
      ∃ w1 d,
        env_step w w1 ∧ repo w !! k = Some d ∧
        d' = with_updatedAt (clock w) (Object_assign d dto) ∧
        repo w2 = <[id d := d']> (repo w1) ∧
        trace w2 = trace w ++ [Saved d'] ∧
        clock w2 = clock w + 1 ∧
        env w2 = env w1
  end ∧
  (quiescent (env w) → is_Some (repo w !! k) → ∃ d', r = inr d').
Proof.
  unfold DocumentsService.update. intros H.
  unfold mbind, M_bind in H.
  destruct (DocumentsService.findOne k w) as [[e|d] w0] eqn:Hf;
    apply findOne_spec in Hf as (Hstep & Hr & Hq).
  - simplify_eq. split.
    + split; [done|]. destruct Hr as [[? Hh]|?]; [left|right]; done.
    + intros Hqu Hs. destruct (Hq Hqu Hs) as [? ?]. done.
  - unfold repository_save, gets, write_row in H.
    unfold mbind, M_bind, mret, M_ret in H.
    destruct (store_access w0) as [[e|[]] w1] eqn:Ha;
      apply store_access_spec in Ha as (Hstep1 & Hq1 & He1).
    + simplify_eq. split.
      * split; [by eapply env_step_trans|]. left.
        by destruct (He1 e eq_refl).
      * intros Hqu _. destruct Hstep as (_ & _ & _ & _ & Hqq).
        specialize (Hq1 (Hqq Hqu)). done.
    + simplify_eq/=. split; [|eauto].
      pose proof (env_step_trans _ _ _ Hstep Hstep1) as Hst.
      destruct Hstep as (Ht & Hc & Hs & _), Hstep1 as (Ht1 & Hc1 & _).
      exists w1, d. split_and!; try done.
      * eapply lookup_weaken; eauto.
      * congruence.
      * by rewrite Ht1, Ht.
      * by rewrite Hc1, Hc.
Qed.

Lemma findOne_quiescent k w d :
  quiescent (env w) → repo w !! k = Some d →
  ∃ w1, DocumentsService.findOne k w = (inr d, w1) ∧
        repo w1 = repo w ∧ clock w1 = clock w ∧ trace w1 = trace w ∧
        quiescent (env w1).
Proof.
  intros Hq Hd.
  destruct (DocumentsService.findOne k w) as [r w1] eqn:Hf.
  apply findOne_spec in Hf as ((Ht & Hc & _ & Hcalm & Hqq) & Hr & Hsome).
  destruct (Hsome Hq) as [d' ->]; [eauto|].
  destruct (Hcalm (quiescent_calm _ Hq)) as [Hrepo _].
  exists w1. rewrite Hrepo in Hr. split_and!; auto. congruence.
Qed.

Lemma update_quiescent k dto w d :
  quiescent (env w) → repo w !! k = Some d →
  ∃ w2, DocumentsService.update k dto w
          = (inr (with_updatedAt (clock w) (Object_assign d dto)), w2) ∧
        repo w2 = <[id d := with_updatedAt (clock w) (Object_assign d dto)]> (repo w) ∧
        clock w2 = clock w + 1 ∧
        trace w2 = trace w ++ [Saved (with_updatedAt (clock w) (Object_assign d dto))] ∧
        quiescent (env w2).
Proof.
  intros Hq Hd.
  destruct (DocumentsService.update k dto w) as [r w2] eqn:Hu.
  apply update_spec in Hu as [Hm Hsome].
  destruct (Hsome Hq) as [d' ->]; [eauto|].
  destruct Hm as (w1 & d0 & (_ & _ & _ & Hcalm & Hqq) & Hl & -> & Hrepo & Htr & Hcl & Henv).
  destruct (Hcalm (quiescent_calm _ Hq)) as [Hr1 _].
  assert (d0 = d) as -> by congruence.
  exists w2. rewrite Hr1 in Hrepo. rewrite Henv. split_and!; auto.
Qed.

(** ** Shapes of a run of the processing handler *)

Definition processing_started : UpdateDocumentDto :=
  {| dto_filename := None; dto_path := None; dto_status := Some PROCESSING;
     dto_ocr_text := None; dto_ocr_confidence := None;
     dto_ocr_language := None; dto_validation_errors := None |}.

Definition processing_done (ocrResult : OCRResult) : UpdateDocumentDto :=
  {| dto_filename := None; dto_path := None; dto_status := Some VALIDATED;
     dto_ocr_text := Some (text ocrResult);
     dto_ocr_confidence := Some (confidence ocrResult);
     dto_ocr_language := Some (language ocrResult);
     dto_validation_errors := None |}.

Definition simulated : OCRResult :=
  {| text := "This is a simulated OCR result."; confidence := Finite 0.98%Q;
     language := "en" |}.

Lemma env_step_calm_repo w w1 : env_step w w1 → calm (env w) → repo w1 = repo w.
Proof. intros (_ & _ & _ & Hcalm & _) Hc. by destruct (Hcalm Hc). Qed.

Lemma env_step_calm w w1 : env_step w w1 → calm (env w) → calm (env w1).
Proof. intros (_ & _ & _ & Hcalm & _) Hc. by destruct (Hcalm Hc). Qed.

Lemma env_step_trace w w1 : env_step w w1 → trace w1 = trace w.
Proof. by intros (? & _). Qed.

Lemma env_step_clock w w1 : env_step w w1 → clock w1 = clock w.
Proof. by intros (_ & ? & _). Qed.

Inductive processing_run (k : string) (w w' : World) : Prop :=
  | run_rejected_before_write e :
      trace w' = trace w ++ [LoggedError e; Nack false true] →
      (calm (env w) → repo w' = repo w) →
      processing_run k w w'
  | run_rejected_after_first_write e d d1 :
      trace w' = trace w ++ [Saved d1; LoggedError e; Nack false true] →
      repo w !! k = Some d →
      d1 = with_updatedAt (clock w) (Object_assign d processing_started) →
      (calm (env w) → repo w' = <[id d := d1]> (repo w)) →
      processing_run k w w'
  | run_acknowledged d d1 d2 :
      trace w' = trace w ++ [Saved d1; Saved d2; Emitted DOCUMENT_VALIDATION k; Ack] →
      repo w !! k = Some d →
      d1 = with_updatedAt (clock w) (Object_assign d processing_started) →
      status d2 = VALIDATED →
      ocr_text d2 = Some (text simulated) →
      ocr_confidence d2 = Some (confidence simulated) →
      ocr_language d2 = Some (language simulated) →
      repo w' !! id d2 = Some d2 →
      (keyed (repo w) → id d2 = k) →
      processing_run k w w'.

Lemma handleProcessing_run data w :
  processing_run (documentId data) w (handleProcessing documentsService data w).2.
Proof.
  destruct (handleProcessing documentsService data w) as [r w'] eqn:H.
  set (k := documentId data). cbn [snd].
  unfold handleProcessing, try_catch in H.
  cbn [api_findOne api_update api_simulateOCR api_emitValidationEvent documentsService] in H.
  fold k in H. unfold mbind, M_bind, mret, M_ret in H.
  unfold logger_error, channel_nack, channel_ack,
    DocumentsService.emitValidationEvent, rabbitClient_emit, log_event in H.
  destruct (DocumentsService.findOne k w) as [[e|d] w1] eqn:Hf;
    apply findOne_spec in Hf as (Hs1 & Hr1 & _).
  { cbn in H. simplify_eq. eapply run_rejected_before_write; cbn.
    - rewrite (env_step_trace _ _ Hs1), <- app_assoc. done.
    - by apply env_step_calm_repo. }
  destruct (DocumentsService.update k _ w1) as [[e|d1] w2] eqn:Hu1;
    apply update_spec in Hu1 as [Hm1 _].
  { destruct Hm1 as [Hs2 _]. pose proof (env_step_trans _ _ _ Hs1 Hs2) as Hs.
    cbn in H. simplify_eq. eapply run_rejected_before_write; cbn.
    - rewrite (env_step_trace _ _ Hs), <- app_assoc. done.
    - by apply env_step_calm_repo. }
  destruct Hm1 as (w1' & d0 & Hs2 & Hl & Hd1 & Hrepo2 & Htr2 & Hcl2 & Henv2).
  assert (d0 = d) as -> by congruence.
  assert (repo w !! k = Some d) as Hd.
  { destruct Hs1 as (_ & _ & Hsub & _). eapply lookup_weaken; eauto. }
  pose proof (env_step_trans _ _ _ Hs1 Hs2) as Hs12.
  rewrite (env_step_clock _ _ Hs1) in Hd1.
  rewrite (env_step_trace _ _ Hs1) in Htr2.
  unfold DocumentsService.simulateOCR, mret, M_ret in H.
  destruct (DocumentsService.update k _ w2) as [[e|d2] w3] eqn:Hu2;
    apply update_spec in Hu2 as [Hm2 _].
  { destruct Hm2 as [Hs3 _].
    cbn in H. simplify_eq. eapply run_rejected_after_first_write; cbn; eauto.
    - rewrite (env_step_trace _ _ Hs3), Htr2, <- !app_assoc. done.
    - intros Hc. rewrite (env_step_calm_repo _ _ Hs3), Hrepo2.
      + by rewrite (env_step_calm_repo _ _ Hs12).
      + rewrite Henv2. by apply (env_step_calm _ _ Hs12). }
  destruct Hm2 as (w2' & d1' & Hs3 & Hl3 & Hd2 & Hrepo3 & Htr3 & Hcl3 & Henv3).
  cbn in H. simplify_eq.
  eapply run_acknowledged; cbn;
    [ rewrite Htr3, Htr2, <- !app_assoc; done
    | exact Hd | reflexivity | reflexivity | reflexivity | reflexivity
    | reflexivity | | ].
  - rewrite Hrepo3. apply lookup_insert_eq.
  - intros Hk.
    assert (keyed (repo w2)) as Hk2.
    { rewrite Hrepo2. apply map_Forall_insert_2; [reflexivity|].
      destruct Hs12 as (_ & _ & Hsub & _). by eapply keyed_subseteq. }
    exact (Hk2 _ _ Hl3).
Qed.

Lemma handleProcessing_quiescent data w d :
  quiescent (env w) →
  repo w !! documentId data = Some d →
  id d = documentId data →
  let d1 := with_updatedAt (clock w) (Object_assign d processing_started) in
  let d2 := with_updatedAt (clock w + 1)
              (Object_assign d1 (processing_done simulated)) in
  ∃ w', handleProcessing documentsService data w = (inr tt, w') ∧
        trace w' = trace w ++ [Saved d1; Saved d2;
                               Emitted DOCUMENT_VALIDATION (documentId data); Ack] ∧
        repo w' = <[documentId data := d2]> (repo w) ∧
        clock w' = clock w + 2 ∧
        quiescent (env w').
Proof.
  intros Hq Hd Hid d1 d2. set (k := documentId data) in *.
  destruct (findOne_quiescent k w d Hq Hd) as (w1 & Hf & Hr1 & Hc1 & Ht1 & Hq1).
  assert (repo w1 !! k = Some d) as Hd1 by (by rewrite Hr1).
  destruct (update_quiescent k processing_started w1 d Hq1 Hd1)
    as (w2 & Hu1 & Hr2 & Hc2 & Ht2 & Hq2).
  rewrite Hc1, Hid in *. fold d1 in Hu1, Hr2, Ht2.
  assert (repo w2 !! k = Some d1) as Hd2 by (rewrite Hr2; apply lookup_insert_eq).
  destruct (update_quiescent k (processing_done simulated) w2 d1 Hq2 Hd2)
    as (w3 & Hu2 & Hr3 & Hc3 & Ht3 & Hq3).
  rewrite Hc2 in *. fold d2 in Hu2, Hr3, Ht3.
  change (id d1) with (id d) in Hr3. rewrite Hid in Hr3.
  eexists. split.
  - unfold handleProcessing, try_catch.
    cbn [api_findOne api_update api_simulateOCR api_emitValidationEvent documentsService].
    fold k. unfold mbind, M_bind, mret, M_ret.
    rewrite Hf. fold processing_started. rewrite Hu1.
    unfold DocumentsService.simulateOCR, mret, M_ret.
    fold simulated. change (mkUpdate None None (Some VALIDATED) _ _ _ None)
      with (processing_done simulated).
    rewrite Hu2. reflexivity.
  - cbn. split_and!; try done.
    + rewrite Ht3, Ht2, Ht1, <- !app_assoc. done.
    + rewrite Hr3, Hr2, Hr1. apply insert_insert_eq.
    + rewrite Hc3. lia.
Qed.

(** ** Shapes of a run of the validation handler *)

(** The partial update the validation handler settles on for [document]. *)
Definition verdict (document : Document) : UpdateDocumentDto :=
  let validatedResult :=
    OCRResultSchema_safeParse
      {| in_text := ocr_text document;
         in_confidence := ocr_confidence document;
         in_language := ocr_language document |} in
  if negb (success validatedResult) then
    {| dto_filename := None; dto_path := None; dto_status := Some FAILED;
       dto_ocr_text := None; dto_ocr_confidence := None;
       dto_ocr_language := None;
       dto_validation_errors :=
         Some (Some (join "," (message <$> error_issues validatedResult))) |}
  else
    {| dto_filename := None; dto_path := None; dto_status := Some VALIDATED;
       dto_ocr_text := None; dto_ocr_confidence := None;
       dto_ocr_language := None; dto_validation_errors := Some None |}.

Lemma handleValidation_unfold data w :
  handleValidation documentsService data w =
  try_catch
    (document ← DocumentsService.findOne (documentId data);
     DocumentsService.update (documentId data) (verdict document) ;;
     channel_ack)
    (λ error, logger_error error ;; channel_nack false true) w.
Proof.
  unfold handleValidation, try_catch, verdict.
  cbn [api_findOne api_update documentsService].
  unfold mbind, M_bind, mret, M_ret.
  destruct (DocumentsService.findOne (documentId data) w) as [[e|d] w1]; [done|].
  by destruct (negb _).
Qed.

Inductive validation_run (k : string) (w w' : World) : Prop :=
  | vrun_rejected e :
      trace w' = trace w ++ [LoggedError e; Nack false true] →
      (calm (env w) → repo w' = repo w) →
      validation_run k w w'
  | vrun_acknowledged d d' :
      trace w' = trace w ++ [Saved d'; Ack] →
      repo w !! k = Some d →
      d' = with_updatedAt (clock w) (Object_assign d (verdict d)) →
      repo w' !! id d' = Some d' →
      validation_run k w w'.

Lemma handleValidation_run data w :
  validation_run (documentId data) w (handleValidation documentsService data w).2.
Proof.
  rewrite handleValidation_unfold.
  set (k := documentId data).
  destruct (try_catch _ _ w) as [r w'] eqn:H. cbn [snd].
  unfold try_catch, mbind, M_bind, mret, M_ret in H.
  unfold logger_error, channel_nack, channel_ack, log_event in H.
  destruct (DocumentsService.findOne k w) as [[e|d] w1] eqn:Hf;
    apply findOne_spec in Hf as (Hs1 & Hr1 & _).
  { cbn in H. simplify_eq. eapply vrun_rejected; cbn.
    - rewrite (env_step_trace _ _ Hs1), <- app_assoc. done.
    - by apply env_step_calm_repo. }
  destruct (DocumentsService.update k _ w1) as [[e|d1] w2] eqn:Hu1;
    apply update_spec in Hu1 as [Hm1 _].
  { destruct Hm1 as [Hs2 _]. pose proof (env_step_trans _ _ _ Hs1 Hs2) as Hs.
    cbn in H. simplify_eq. eapply vrun_rejected; cbn.
    - rewrite (env_step_trace _ _ Hs), <- app_assoc. done.
    - by apply env_step_calm_repo. }
  destruct Hm1 as (w1' & d0 & Hs2 & Hl & Hd1 & Hrepo2 & Htr2 & Hcl2 & Henv2).
  assert (d0 = d) as -> by congruence.
  assert (repo w !! k = Some d) as Hd.
  { destruct Hs1 as (_ & _ & Hsub & _). eapply lookup_weaken; eauto. }
  rewrite (env_step_clock _ _ Hs1) in Hd1.
  rewrite (env_step_trace _ _ Hs1) in Htr2.
  cbn in H. simplify_eq.
  eapply vrun_acknowledged; cbn;
    [ rewrite Htr2, <- !app_assoc; done | exact Hd | reflexivity | ].
  rewrite Hrepo2. apply lookup_insert_eq.
Qed.

Lemma handleValidation_quiescent data w d :
  quiescent (env w) →
  repo w !! documentId data = Some d →
  id d = documentId data →
  let d' := with_updatedAt (clock w) (Object_assign d (verdict d)) in
  ∃ w', handleValidation documentsService data w = (inr tt, w') ∧
        trace w' = trace w ++ [Saved d'; Ack] ∧
        repo w' = <[documentId data := d']> (repo w) ∧
        clock w' = clock w + 1 ∧
        quiescent (env w').
Proof.
  intros Hq Hd Hid d'. set (k := documentId data) in *.
  destruct (findOne_quiescent k w d Hq Hd) as (w1 & Hf & Hr1 & Hc1 & Ht1 & Hq1).
  assert (repo w1 !! k = Some d) as Hd1 by (by rewrite Hr1).
  destruct (update_quiescent k (verdict d) w1 d Hq1 Hd1)
    as (w2 & Hu1 & Hr2 & Hc2 & Ht2 & Hq2).
  rewrite Hc1, Hid in *. fold d' in Hu1, Hr2, Ht2.
  eexists. split.
  - rewrite handleValidation_unfold. fold k.
    unfold try_catch, mbind, M_bind, mret, M_ret.
    rewrite Hf, Hu1. reflexivity.
  - cbn. split_and!; try done.
    + rewrite Ht2, Ht1, <- app_assoc. done.
    + rewrite Hr2, Hr1. done.
Qed.

(* ===================================================================== *)
(** * Sample data *)

Definition invoice : Document :=
  {| id := "doc-1"; filename := "invoice.pdf"; path := "3f2a.pdf";
     status := UPLOADED; ocr_text := None; ocr_confidence := None;
     ocr_language := None; validation_errors := None;
     createdAt := 0; updatedAt := 0 |}.

Definition empty_world : World :=
  {| repo := ∅; env := []; clock := 0; trace := [] |}.

(** [invoice] after the processing handler has served it. *)
Definition processed_invoice : Document :=
  {| id := "doc-1"; filename := "invoice.pdf"; path := "3f2a.pdf";
     status := VALIDATED;
     ocr_text := Some "This is a simulated OCR result.";
     ocr_confidence := Some (Finite 0.98%Q);
     ocr_language := Some "en"; validation_errors := None;
     createdAt := 0; updatedAt := 2 |}.

(** A store holding the one record [d]; [schedule] is what the rest of the
    system does while a handler runs. *)
Definition world_with (d : Document) (schedule : list EnvAction) : World :=
  {| repo := {[ id d := d ]}; env := schedule; clock := updatedAt d + 1;
     trace := [] |}.

Definition uploaded_world (schedule : list EnvAction) : World :=
  world_with invoice schedule.

Definition processed_world : World := world_with processed_invoice [].

Definition about (k : string) : Payload := {| documentId := k |}.

Lemma keyed_world_with d schedule : keyed (repo (world_with d schedule)).
Proof. unfold keyed. apply map_Forall_singleton. reflexivity. Qed.

Example processing_invoice :
  repo (handleProcessing documentsService (about "doc-1") (uploaded_world [])).2
    = repo processed_world.
Proof. reflexivity. Qed.

(* ===================================================================== *)
(** * The lookup that finds nothing *)

(** What the guard of both handlers does once the lookup has resolved with
    [null]: acknowledge and stop. *)
Lemma null_lookup_is_acknowledged svc data w w1 :
  api_findOne svc (documentId data) w = (inr None, w1) →
  trace (handleProcessing svc data w).2 = trace w1 ++ [Ack] ∧
  repo (handleProcessing svc data w).2 = repo w1 ∧
  trace (handleValidation svc data w).2 = trace w1 ++ [Ack] ∧
  repo (handleValidation svc data w).2 = repo w1.
Proof.
  intros H.
  unfold handleProcessing, handleValidation, try_catch, mbind, M_bind.
  rewrite H. done.
Qed.

(** The injected service never resolves its lookup with [null]: a missing
    row is an exception, and so reaches the [catch] of the handler. *)
Lemma missing_record_is_requeued data w :
  repo w !! documentId data = None →
  head (env w) ≠ Some Fault →
  let e := NotFoundException
             ("Document with ID " +:+ documentId data +:+ " not found") in
  new_events (handleProcessing documentsService data) w
    = [LoggedError e; Nack false true] ∧
  new_events (handleValidation documentsService data) w
    = [LoggedError e; Nack false true].
Proof.
  intros Hnone Hhead e. set (k := documentId data) in *.
  destruct (DocumentsService.findOne k w) as [r w1] eqn:Hf.
  pose proof Hf as Hf'. apply findOne_spec in Hf' as (Hs1 & Hr1 & _).
  assert (r = inl e) as ->.
  { destruct r as [e'|d].
    - destruct Hr1 as [[_ ?]|[-> _]]; [done|reflexivity].
    - destruct Hs1 as (_ & _ & Hsub & _).
      pose proof (lookup_weaken _ _ _ _ Hr1 Hsub). congruence. }
  split; apply new_events_app.
  - unfold handleProcessing, try_catch.
    cbn [api_findOne documentsService]. fold k.
    unfold mbind, M_bind, mret, M_ret. rewrite Hf. cbn.
    rewrite (env_step_trace _ _ Hs1), <- app_assoc. done.
  - rewrite handleValidation_unfold. fold k.
    unfold try_catch, mbind, M_bind, mret, M_ret. rewrite Hf. cbn.
    rewrite (env_step_trace _ _ Hs1), <- app_assoc. done.
Qed.

(** C1.  A [processing] event, and likewise a [validation] event, whose
    documentId has no record in the store: the claim asks for an
    acknowledgment.  On the empty store both handlers write nothing, log the
    [NotFoundException] thrown by [DocumentsService.findOne] and reject the
    message with requeue; no acknowledgment is sent. *)
Theorem C1_missing_record_not_acknowledged :
  let e := NotFoundException "Document with ID doc-1 not found" in
  new_events (handleProcessing documentsService (about "doc-1")) empty_world
    = [LoggedError e; Nack false true] ∧
  new_events (handleValidation documentsService (about "doc-1")) empty_world
    = [LoggedError e; Nack false true] ∧
  repo (handleProcessing documentsService (about "doc-1") empty_world).2 = ∅ ∧
  repo (handleValidation documentsService (about "doc-1") empty_world).2 = ∅.
Proof. split_and!; reflexivity. Qed.

(* ===================================================================== *)
(** * The result validator *)

(** The constraints as the specification words them: a field is violated
    when it is null or empty (text, language), or null or outside
    [[0, 1]] (confidence). *)
Definition spec_text_violated (i : OCRInput) : bool :=
  match in_text i with
  | None => true
  | Some t => bool_decide (t = "")
  end.

Definition spec_confidence_violated (i : OCRInput) : bool :=
  match in_confidence i with
  | None => true
  | Some (Finite c) => negb (Qle_bool 0 c && Qle_bool c 1)
  | Some NaN => true
  | Some (Infinite _) => true
  end.

Definition spec_language_violated (i : OCRInput) : bool :=
  match in_language i with
  | None => true
  | Some l => bool_decide (l = "")
  end.

Definition spec_violated (i : OCRInput) : bool :=
  spec_text_violated i || spec_confidence_violated i || spec_language_violated i.

(** The keys whose value the schema refuses: [null], or [NaN] for the
    number. *)
Definition refused_fields (i : OCRInput) : list string :=
  match in_text i with Some _ => [] | None => ["text"] end
  ++ match in_confidence i with
     | Some NaN | None => ["confidence"]
     | Some _ => []
     end
  ++ match in_language i with Some _ => [] | None => ["language"] end.

(** C2, as stated, fails: empty text, a confidence above 1, a negative
    confidence and an empty language each violate a constraint of the
    specification, and the schema accepts all four inputs. *)
Lemma C2_empty_and_out_of_range_pass :
  let empty_text := {| in_text := Some ""; in_confidence := Some (Finite 0.5%Q);
                       in_language := Some "en" |} in
  let too_confident := {| in_text := Some "Invoice"; in_confidence := Some (Finite 2%Q);
                          in_language := Some "en" |} in
  let negative := {| in_text := Some "Invoice"; in_confidence := Some (Finite (-1)%Q);
                     in_language := Some "en" |} in
  let no_language := {| in_text := Some "Invoice"; in_confidence := Some (Finite 0.5%Q);
                        in_language := Some "" |} in
  Forall (λ i, spec_violated i = true
               ∧ success (OCRResultSchema_safeParse i) = true)
         [empty_text; too_confident; negative; no_language].
Proof. cbv zeta. repeat constructor. Qed.

(** C2, amended.  The validator fails exactly when text is null, or
    confidence is null or NaN, or language is null, and then reports one
    issue per refused field, each under its own key, in the order text,
    confidence, language; emptiness of the strings and the range of the
    confidence (below 0, above 1, infinite) are not looked at.  Every input
    the specification calls valid passes. *)
Theorem C2_validator_checks_types (i : OCRInput) :
  (success (OCRResultSchema_safeParse i) = false
     ↔ in_text i = None ∨ in_confidence i = None ∨ in_confidence i = Some NaN
       ∨ in_language i = None) ∧
  issue_path <$> error_issues (OCRResultSchema_safeParse i) = refused_fields i ∧
  NoDup (issue_path <$> error_issues (OCRResultSchema_safeParse i)) ∧
  length (error_issues (OCRResultSchema_safeParse i)) = length (refused_fields i) ∧
  (spec_violated i = false → success (OCRResultSchema_safeParse i) = true).
Proof.
  split_and!.
  - destruct i as [[t|] [[c| |neg]|] [l|]]; cbn;
      (split; [try done; intros _; auto
              | try done; intros [|[|[|]]]; done]).
  - by destruct i as [[t|] [[c| |neg]|] [l|]].
  - destruct i as [[t|] [[c| |neg]|] [l|]]; cbn;
      by apply (bool_decide_unpack _).
  - by destruct i as [[t|] [[c| |neg]|] [l|]].
  - unfold spec_violated, spec_text_violated, spec_confidence_violated,
      spec_language_violated.
    destruct i as [[t|] [[c| |neg]|] [l|]]; cbn; rewrite ?orb_true_r; done.
Qed.

(* ===================================================================== *)
(** * The success path of the processing handler *)

(** C3.  A [processing] event for a record in state [UPLOADED], with the
    store answering every call: the handler writes [PROCESSING], then in one
    write the three extraction fields (all non-null) together with
    [VALIDATED], then publishes exactly one [validation] event for the same
    id, then acknowledges; the record left in the store is the one of the
    second write. *)
Theorem C3_processing_success data w d :
  quiescent (env w) →
  keyed (repo w) →
  repo w !! documentId data = Some d →
  status d = UPLOADED →
  ∃ d1 d2 w',
    handleProcessing documentsService data w = (inr tt, w') ∧
    new_events (handleProcessing documentsService data) w
      = [Saved d1; Saved d2; Emitted DOCUMENT_VALIDATION (documentId data); Ack] ∧
    status d1 = PROCESSING ∧
    status d2 = VALIDATED ∧
    ocr_text d2 = Some "This is a simulated OCR result." ∧
    ocr_confidence d2 = Some (Finite 0.98%Q) ∧
    ocr_language d2 = Some "en" ∧
    id d2 = documentId data ∧
    repo w' !! documentId data = Some d2.
Proof.
  intros Hq Hk Hd _.
  destruct (handleProcessing_quiescent data w d Hq Hd (Hk _ _ Hd))
    as (w' & Hrun & Htr & Hrepo & _ & _).
  eexists _, _, w'.
  split; [exact Hrun|].
  split; [apply new_events_app; rewrite Hrun; exact Htr|].
  split_and!; try reflexivity.
  - cbn. exact (Hk _ _ Hd).
  - rewrite Hrepo. apply lookup_insert_eq.
Qed.

Lemma C3_processing_success_witness :
  ∃ d1 d2 w',
    handleProcessing documentsService (about "doc-1") (uploaded_world [])
      = (inr tt, w') ∧
    new_events (handleProcessing documentsService (about "doc-1")) (uploaded_world [])
      = [Saved d1; Saved d2; Emitted DOCUMENT_VALIDATION "doc-1"; Ack] ∧
    status d1 = PROCESSING ∧
    status d2 = VALIDATED ∧
    ocr_text d2 = Some "This is a simulated OCR result." ∧
    ocr_confidence d2 = Some (Finite 0.98%Q) ∧
    ocr_language d2 = Some "en" ∧
    id d2 = "doc-1" ∧
    repo w' !! "doc-1" = Some d2.
Proof.
  apply (C3_processing_success (about "doc-1") (uploaded_world []) invoice).
  - constructor.
  - apply keyed_world_with.
  - reflexivity.
  - reflexivity.
Defined.

(* ===================================================================== *)
(** * The validation handler *)

Definition extraction_fields (document : Document) : OCRInput :=
  {| in_text := ocr_text document;
     in_confidence := ocr_confidence document;
     in_language := ocr_language document |}.

(** C4.  A [validation] event for an existing record, with the store
    answering every call: one write, then the acknowledgment, and nothing
    else (no reject).  If the extraction fields pass the schema the write
    sets [VALIDATED] and clears [validation_errors]; if they fail it sets
    [FAILED] and stores the issue messages joined with a comma. *)
Theorem C4_validation_outcomes data w d :
  quiescent (env w) →
  keyed (repo w) →
  repo w !! documentId data = Some d →
  let validatedResult := OCRResultSchema_safeParse (extraction_fields d) in
  ∃ d' w',
    handleValidation documentsService data w = (inr tt, w') ∧
    new_events (handleValidation documentsService data) w = [Saved d'; Ack] ∧
    repo w' !! documentId data = Some d' ∧
    (success validatedResult = true →
       status d' = VALIDATED ∧ validation_errors d' = None) ∧
    (success validatedResult = false →
       status d' = FAILED ∧
       validation_errors d'
         = Some (join "," (message <$> error_issues validatedResult))).
Proof.
  intros Hq Hk Hd r.
  destruct (handleValidation_quiescent data w d Hq Hd (Hk _ _ Hd))
    as (w' & Hrun & Htr & Hrepo & _ & _).
  eexists _, w'. split_and!; [exact Hrun | | | | ].
  - apply new_events_app. rewrite Hrun. exact Htr.
  - rewrite Hrepo. apply lookup_insert_eq.
  - intros Hs. cbn. unfold verdict. fold (extraction_fields d). fold r.
    rewrite Hs. done.
  - intros Hs. cbn. unfold verdict. fold (extraction_fields d). fold r.
    rewrite Hs. done.
Qed.

Lemma C4_validation_outcomes_witness :
  (∃ d' w',
     handleValidation documentsService (about "doc-1") processed_world = (inr tt, w') ∧
     status d' = VALIDATED ∧ validation_errors d' = None ∧
     repo w' !! "doc-1" = Some d') ∧
  (∃ d' w',
     handleValidation documentsService (about "doc-1") (uploaded_world []) = (inr tt, w') ∧
     status d' = FAILED ∧
     validation_errors d'
       = Some "Expected string, received null,Expected number, received null,Expected string, received null" ∧
     repo w' !! "doc-1" = Some d').
Proof.
  split.
  - destruct (C4_validation_outcomes (about "doc-1") processed_world
                processed_invoice)
      as (d' & w' & Hrun & _ & Hrepo & Hpass & _).
    + constructor.
    + apply keyed_world_with.
    + reflexivity.
    + destruct (Hpass eq_refl) as [Hst Herr]. eauto 10.
  - destruct (C4_validation_outcomes (about "doc-1") (uploaded_world []) invoice)
      as (d' & w' & Hrun & _ & Hrepo & _ & Hfail).
    + constructor.
    + apply keyed_world_with.
    + reflexivity.
    + destruct (Hfail eq_refl) as [Hst Herr]. eauto 10.
Defined.

(* ===================================================================== *)
(** * Infrastructure errors *)

(** The run ended in the [catch] with an infrastructure error. *)
Definition store_failed (evs : list Event) : Prop :=
  ∃ m, LoggedError (InfrastructureError m) ∈ evs.

(** C5, as stated, fails for the processing handler: when the store stops
    answering after the write of [PROCESSING] (here at the lookup of the
    second update), the message is requeued but the record has moved from
    [UPLOADED] to [PROCESSING]. *)
Lemma C5_status_changed_before_error :
  let w := uploaded_world [Quiet; Quiet; Quiet; Fault] in
  let w' := (handleProcessing documentsService (about "doc-1") w).2 in
  store_failed (new_events (handleProcessing documentsService (about "doc-1")) w) ∧
  status <$> repo w !! "doc-1" = Some UPLOADED ∧
  status <$> repo w' !! "doc-1" = Some PROCESSING.
Proof.
  cbv zeta. split_and!; [|reflexivity|reflexivity].
  eexists. vm_compute new_events. apply list_elem_of_lookup. by exists 1%nat.
Qed.

(** C5, amended.  In every run of either handler that ends in the [catch]
    with an infrastructure error of the store, the message is rejected with
    requeue and never acknowledged.  When nobody else deletes records
    meanwhile, the validation handler leaves the store exactly as it found
    it; the processing handler leaves it as it found it if the error struck
    no later than the write of [PROCESSING], and otherwise leaves that first
    write in place: the record keeps status [PROCESSING], the rest of the
    store is unchanged. *)
Theorem C5_infrastructure_error_requeues data w :
  let k := documentId data in
  let started d := with_updatedAt (clock w) (Object_assign d processing_started) in
  let wp := (handleProcessing documentsService data w).2 in
  let wv := (handleValidation documentsService data w).2 in
  (store_failed (new_events (handleProcessing documentsService data) w) →
   last (new_events (handleProcessing documentsService data) w)
     = Some (Nack false true) ∧
   (Ack ∉ new_events (handleProcessing documentsService data) w) ∧
   (calm (env w) → keyed (repo w) →
    repo wp = repo w
    ∨ ∃ d, repo w !! k = Some d ∧ status (started d) = PROCESSING ∧
           repo wp = <[k := started d]> (repo w))) ∧
  (store_failed (new_events (handleValidation documentsService data) w) →
   last (new_events (handleValidation documentsService data) w)
     = Some (Nack false true) ∧
   (Ack ∉ new_events (handleValidation documentsService data) w) ∧
   (calm (env w) → repo wv = repo w)).
Proof.
  intros k started wp wv. split; intros [m Hm].
  - subst wp.
    destruct (handleProcessing_run data w)
      as [e Ht Hr|e d d1 Ht Hd Hd1 Hr|d d1 d2 Ht _ _ _ _ _ _ _ _];
      rewrite (new_events_app _ _ _ Ht) in *.
    + split_and!; [done| |auto].
      rewrite !elem_of_cons, elem_of_nil. intros [?|[?|?]]; done.
    + split_and!; [done| |].
      * rewrite !elem_of_cons, elem_of_nil. intros [?|[?|[?|?]]]; done.
      * intros Hc Hk. right. exists d. subst d1. fold k in Hd.
        pose proof (Hk _ _ Hd) as Hid. cbn in Hid.
        split_and!; [done|done|]. rewrite <- Hid. auto.
    + exfalso. revert Hm. rewrite !elem_of_cons, elem_of_nil.
      intros [?|[?|[?|[?|?]]]]; done.
  - subst wv.
    destruct (handleValidation_run data w) as [e Ht Hr|d d' Ht _ _ _];
      rewrite (new_events_app _ _ _ Ht) in *.
    + split_and!; [done| |auto].
      rewrite !elem_of_cons, elem_of_nil. intros [?|[?|?]]; done.
    + exfalso. revert Hm. rewrite !elem_of_cons, elem_of_nil.
      intros [?|[?|?]]; done.
Qed.

Ltac schedule_ok :=
  repeat (apply Forall_cons; split; [first [reflexivity | by left | by right]|]);
  apply Forall_nil; exact I.

Lemma C5_infrastructure_error_requeues_witness :
  let wp := uploaded_world [Quiet; Quiet; Quiet; Fault] in
  let wv := uploaded_world [Quiet; Fault] in
  (last (new_events (handleProcessing documentsService (about "doc-1")) wp)
     = Some (Nack false true) ∧
   (Ack ∉ new_events (handleProcessing documentsService (about "doc-1")) wp) ∧
   (repo (handleProcessing documentsService (about "doc-1") wp).2 = repo wp
    ∨ ∃ d, repo wp !! "doc-1" = Some d ∧
           status (with_updatedAt (clock wp) (Object_assign d processing_started))
             = PROCESSING ∧
           repo (handleProcessing documentsService (about "doc-1") wp).2
             = <["doc-1" := with_updatedAt (clock wp)
                              (Object_assign d processing_started)]> (repo wp))) ∧
  (last (new_events (handleValidation documentsService (about "doc-1")) wv)
     = Some (Nack false true) ∧
   (Ack ∉ new_events (handleValidation documentsService (about "doc-1")) wv) ∧
   repo (handleValidation documentsService (about "doc-1") wv).2 = repo wv).
Proof.
  intros wp wv.
  destruct (C5_infrastructure_error_requeues (about "doc-1") wp) as [Hp _].
  destruct (C5_infrastructure_error_requeues (about "doc-1") wv) as [_ Hv].
  split.
  - destruct Hp as (Hlast & Hack & Hrepo).
    { eexists. vm_compute new_events. apply list_elem_of_lookup. by exists 1%nat. }
    split_and!; [exact Hlast|exact Hack|].
    apply Hrepo; [schedule_ok|apply keyed_world_with].
  - destruct Hv as (Hlast & Hack & Hrepo).
    { eexists. vm_compute new_events. apply list_elem_of_lookup. by exists 0%nat. }
    split_and!; [exact Hlast|exact Hack|].
    apply Hrepo. schedule_ok.
Defined.

(* ===================================================================== *)
(** * Redelivery of a [processing] event *)

Definition is_validation_event (k : string) (ev : Event) : bool :=
  match ev with
  | Emitted DOCUMENT_VALIDATION k' => bool_decide (k' = k)
  | _ => false
  end.

(** How many [validation] events for [k] a list of events publishes. *)
Definition validation_events (k : string) (evs : list Event) : nat :=
  length (List.filter (is_validation_event k) evs).

(** C7.  After a first attempt that fully succeeded, handling the same
    [processing] event again leaves the record as it was, field for field,
    except for the [updatedAt] stamp every write renews; no other record is
    touched; and the second attempt publishes exactly one more [validation]
    event for the same id before it acknowledges. *)
Theorem C7_redelivery_is_idempotent data w d :
  quiescent (env w) →
  keyed (repo w) →
  repo w !! documentId data = Some d →
  let k := documentId data in
  let w1 := (handleProcessing documentsService data w).2 in
  let w2 := (handleProcessing documentsService data w1).2 in
  ∃ d1 dp,
    repo w1 !! k = Some d1 ∧
    status d1 = VALIDATED ∧
    repo w2 = <[k := with_updatedAt (clock w1 + 1) d1]> (repo w1) ∧
    new_events (handleProcessing documentsService data) w1
      = [Saved dp; Saved (with_updatedAt (clock w1 + 1) d1);
         Emitted DOCUMENT_VALIDATION k; Ack] ∧
    validation_events k (new_events (handleProcessing documentsService data) w1)
      = 1%nat.
Proof.
  intros Hq Hk Hd k w1 w2.
  destruct (handleProcessing_quiescent data w d Hq Hd (Hk _ _ Hd))
    as (w1' & Hrun1 & Htr1 & Hrepo1 & Hcl1 & Hq1).
  assert (w1 = w1') as Hw1 by (subst w1; by rewrite Hrun1).
  clearbody w1. subst w1'. fold k in Hrepo1, Htr1.
  set (d1 := with_updatedAt (clock w + 1) _) in *.
  assert (repo w1 !! k = Some d1) as Hd1 by (rewrite Hrepo1; apply lookup_insert_eq).
  destruct (handleProcessing_quiescent data w1 d1 Hq1 Hd1 (Hk _ _ Hd))
    as (w2' & Hrun2 & Htr2 & Hrepo2 & Hcl2 & Hq2).
  assert (w2 = w2') as Hw2 by (subst w2; by rewrite Hrun2).
  clearbody w2. subst w2'. fold k in Hrepo2, Htr2.
  assert (new_events (handleProcessing documentsService data) w1
          = [Saved (with_updatedAt (clock w1) (Object_assign d1 processing_started));
             Saved (with_updatedAt (clock w1 + 1) d1);
             Emitted DOCUMENT_VALIDATION k; Ack]) as Hev.
  { apply new_events_app. rewrite Hrun2. exact Htr2. }
  exists d1, (with_updatedAt (clock w1) (Object_assign d1 processing_started)).
  split_and!; [exact Hd1|reflexivity|exact Hrepo2|exact Hev|].
  rewrite Hev. unfold validation_events. cbn.
  by rewrite bool_decide_eq_true_2.
Qed.

Lemma C7_redelivery_is_idempotent_witness :
  let w1 := (handleProcessing documentsService (about "doc-1") (uploaded_world [])).2 in
  let w2 := (handleProcessing documentsService (about "doc-1") w1).2 in
  ∃ d1 dp,
    repo w1 !! "doc-1" = Some d1 ∧
    status d1 = VALIDATED ∧
    repo w2 = <["doc-1" := with_updatedAt (clock w1 + 1) d1]> (repo w1) ∧
    new_events (handleProcessing documentsService (about "doc-1")) w1
      = [Saved dp; Saved (with_updatedAt (clock w1 + 1) d1);
         Emitted DOCUMENT_VALIDATION "doc-1"; Ack] ∧
    validation_events "doc-1"
      (new_events (handleProcessing documentsService (about "doc-1")) w1) = 1%nat.
Proof.
  apply (C7_redelivery_is_idempotent (about "doc-1") (uploaded_world []) invoice).
  - constructor.
  - apply keyed_world_with.
  - reflexivity.
Defined.

(* ===================================================================== *)
(** * Ordering inside the processing handler *)

(** The publishes issued in [evs] whose outcome has not come back. *)
Fixpoint settle (p : DocumentEventType * string)
  (l : list (DocumentEventType * string)) : list (DocumentEventType * string) :=
  match l with
  | [] => []
  | q :: rest => if decide (p = q) then rest else q :: settle p rest
  end.

Definition pending (evs : list Event) : list (DocumentEventType * string) :=
  foldl (λ issued ev,
           match ev with
           | Emitted p k => issued ++ [(p, k)]
           | Published p k | PublishFailed p k => settle (p, k) issued
           | _ => issued
           end) [] evs.

(** What happens to the oldest pending publish once the handler has
    returned: the broker takes it, or the connection is gone and it is
    lost. *)
Definition broker_confirms (w : World) : World :=
  match pending (trace w) with
  | [] => w
  | (p, k) :: _ => {| repo := repo w; env := env w; clock := clock w;
                      trace := trace w ++ [Published p k] |}
  end.

Definition broker_drops (w : World) : World :=
  match pending (trace w) with
  | [] => w
  | (p, k) :: _ => {| repo := repo w; env := env w; clock := clock w;
                      trace := trace w ++ [PublishFailed p k] |}
  end.

(** The claim in the specification's words: an acknowledgment comes only
    after the publish of the [validation] event has completed. *)
Definition spec_ack_after_publish_completed (k : string) (evs : list Event) : Prop :=
  ∀ i, evs !! i = Some Ack →
       ∃ l, (l < i)%nat ∧ evs !! l = Some (Published DOCUMENT_VALIDATION k).

(** C8, as stated, fails: the handler calls [emit], drops the Observable
    and acknowledges.  At the acknowledgment the publish is still pending;
    if the broker then loses it, the message is gone from the queue and no
    [validation] event exists. *)
Lemma C8_ack_does_not_wait_for_the_publish :
  let w := uploaded_world [] in
  let evs := new_events (handleProcessing documentsService (about "doc-1")) w in
  let w' := (handleProcessing documentsService (about "doc-1") w).2 in
  ¬ spec_ack_after_publish_completed "doc-1" evs ∧
  last evs = Some Ack ∧
  pending evs = [(DOCUMENT_VALIDATION, "doc-1")] ∧
  drop 2 (trace (broker_drops w'))
    = [Emitted DOCUMENT_VALIDATION "doc-1"; Ack;
       PublishFailed DOCUMENT_VALIDATION "doc-1"].
Proof.
  cbv zeta. split_and!; [|reflexivity..].
  intros Hclaim. destruct (Hclaim 3%nat eq_refl) as (l & Hl & Hpub).
  by destruct l as [|[|[|]]]; [..|lia].
Qed.

(** The calls of a run of the processing handler in which the event was
    issued. *)
Lemma handleProcessing_issued data w l pattern k' :
  new_events (handleProcessing documentsService data) w !! l
    = Some (Emitted pattern k') →
  ∃ w2 w3 d1 d2,
    DocumentsService.update (documentId data) (processing_done simulated) w2
      = (inr d2, w3) ∧
    repo w3 !! id d2 = Some d2 ∧
    handleProcessing documentsService data w
      = (DocumentsService.emitValidationEvent (documentId data) ;; channel_ack) w3 ∧
    new_events (handleProcessing documentsService data) w
      = [Saved d1; Saved d2; Emitted DOCUMENT_VALIDATION (documentId data); Ack].
Proof.
  intros Hl. set (k := documentId data) in *.
  destruct (handleProcessing_run data w)
    as [e Ht _|e d d1 Ht _ _ _|d d1 d2 Ht _ _ _ _ _ _ _ _];
    rewrite (new_events_app _ _ _ Ht) in Hl |- *.
  { by destruct l as [|[|[|]]]. }
  { by destruct l as [|[|[|[|]]]]. }
  clear Hl. fold k in Ht.
  destruct (handleProcessing documentsService data w) as [r w'] eqn:H.
  cbn [snd] in *.
  unfold handleProcessing, try_catch in H.
  cbn [api_findOne api_update api_simulateOCR api_emitValidationEvent documentsService] in H.
  fold k in H. unfold mbind, M_bind, mret, M_ret in H.
  unfold logger_error, channel_nack, log_event in H.
  destruct (DocumentsService.findOne k w) as [[e|d0] w1] eqn:Hf;
    apply findOne_spec in Hf as (Hs1 & _ & _).
  { exfalso. cbn in H. simplify_eq. cbn in Ht.
    rewrite (env_step_trace _ _ Hs1), <- app_assoc in Ht.
    by apply app_inv_head in Ht. }
  destruct (DocumentsService.update k _ w1) as [[e|d1'] w2] eqn:Hu1;
    apply update_spec in Hu1 as [Hm1 _].
  { exfalso. destruct Hm1 as [Hs2 _]. cbn in H. simplify_eq. cbn in Ht.
    rewrite (env_step_trace _ _ Hs2), (env_step_trace _ _ Hs1), <- app_assoc in Ht.
    by apply app_inv_head in Ht. }
  destruct Hm1 as (_ & _ & _ & _ & _ & _ & Htr2 & _).
  rewrite (env_step_trace _ _ Hs1) in Htr2.
  unfold DocumentsService.simulateOCR, mret, M_ret in H.
  fold simulated in H.
  change (mkUpdate None None (Some VALIDATED) _ _ _ None)
    with (processing_done simulated) in H.
  destruct (DocumentsService.update k (processing_done simulated) w2)
    as [[e|d2'] w3] eqn:Hu2.
  { exfalso. apply update_spec in Hu2 as [[Hs3 _] _]. cbn in H. simplify_eq.
    cbn in Ht. rewrite (env_step_trace _ _ Hs3), Htr2, <- !app_assoc in Ht.
    by apply app_inv_head in Ht. }
  pose proof Hu2 as Hu2'.
  apply update_spec in Hu2' as [(w2' & d1'' & _ & _ & Hd2 & Hrepo3 & Htr3 & _) _].
  assert (d2' = d2) as ->.
  { unfold DocumentsService.emitValidationEvent, rabbitClient_emit, channel_ack,
      log_event in H. cbn in H. simplify_eq. cbn in Ht.
    rewrite Htr3, Htr2, <- !app_assoc in Ht. cbn in Ht.
    apply app_inv_head in Ht. by simplify_eq. }
  exists w2, w3, d1, d2. split; [exact Hu2|].
  split; [rewrite Hrepo3, Hd2; apply lookup_insert_eq|].
  split; [|reflexivity].
  rewrite <- H. reflexivity.
Qed.

(** C8, amended.  In every run of the processing handler, whatever the
    store and the rest of the system do: an acknowledgment is preceded by
    the call that issues the [validation] event, which is preceded by the
    final save (the one with the extraction fields and [VALIDATED]; no save
    comes after it).  The event is only ever issued for the handled id, and
    it is issued from the world the final update returned in, a world whose
    store holds the updated record; nothing touches the store between that
    update and the acknowledgment.  The handler does not wait for the
    publish: its outcome is not part of the run, and at the acknowledgment
    the publish is pending. *)
Theorem C8_ack_after_write_and_issue data w :
  let k := documentId data in
  let evs := new_events (handleProcessing documentsService data) w in
  let w' := (handleProcessing documentsService data w).2 in
  (∀ i, evs !! i = Some Ack →
     ∃ j l d2, (j < l < i)%nat ∧
       evs !! j = Some (Saved d2) ∧
       status d2 = VALIDATED ∧
       is_Some (ocr_text d2) ∧ is_Some (ocr_confidence d2) ∧
       is_Some (ocr_language d2) ∧
       (∀ n d, evs !! n = Some (Saved d) → (n ≤ j)%nat) ∧
       evs !! l = Some (Emitted DOCUMENT_VALIDATION k)) ∧
  (∀ l pattern k', evs !! l = Some (Emitted pattern k') →
     pattern = DOCUMENT_VALIDATION ∧ k' = k ∧
     ∃ j d2, (j < l)%nat ∧
       evs !! j = Some (Saved d2) ∧
       status d2 = VALIDATED ∧
       (keyed (repo w) → id d2 = k) ∧
       (∀ n d, evs !! n = Some (Saved d) → (n ≤ j)%nat) ∧
       ∃ w2 w3,
         DocumentsService.update k (processing_done simulated) w2 = (inr d2, w3) ∧
         repo w3 !! id d2 = Some d2 ∧
         handleProcessing documentsService data w
           = (DocumentsService.emitValidationEvent k ;; channel_ack) w3 ∧
         repo w' = repo w3 ∧
         repo w' !! id d2 = Some d2) ∧
  (∀ pattern k', (Published pattern k' ∉ evs) ∧ (PublishFailed pattern k' ∉ evs)) ∧
  (Ack ∈ evs → pending evs = [(DOCUMENT_VALIDATION, k)]).
Proof.
  intros k evs w'. subst evs w'.
  pose proof (handleProcessing_issued data w) as Hissued.
  destruct (handleProcessing_run data w)
    as [e Ht _|e d d1 Ht _ _ _|d d1 d2 Ht _ _ Hst Htx Hcf Hlg _ Hid];
    rewrite (new_events_app _ _ _ Ht) in *.
  - split_and!.
    + intros [|[|[|]]] ?; simplify_eq/=.
    + intros [|[|[|]]] ? ? ?; simplify_eq/=.
    + intros ? ?. rewrite !elem_of_cons, !elem_of_nil.
      split; intros [?|[?|?]]; done.
    + rewrite !elem_of_cons, elem_of_nil. intros [?|[?|?]]; done.
  - split_and!.
    + intros [|[|[|[|]]]] ?; simplify_eq/=.
    + intros [|[|[|[|]]]] ? ? ?; simplify_eq/=.
    + intros ? ?. rewrite !elem_of_cons, !elem_of_nil.
      split; intros [?|[?|[?|?]]]; done.
    + rewrite !elem_of_cons, elem_of_nil. intros [?|[?|[?|?]]]; done.
  - assert (∀ n d0, [Saved d1; Saved d2; Emitted DOCUMENT_VALIDATION k; Ack] !! n
                     = Some (Saved d0) → (n ≤ 1)%nat) as Hlast.
    { intros [|[|[|[|[|]]]]] ? ?; simplify_eq/=; lia. }
    split_and!.
    + intros [|[|[|[|[|]]]]] ?; simplify_eq/=.
      exists 1%nat, 2%nat, d2.
      split_and!; try done; try lia; rewrite ?Htx, ?Hcf, ?Hlg; eauto.
    + intros l pattern k' Hl.
      destruct (Hissued l pattern k' Hl)
        as (w2 & w3 & d1' & d2' & Hu & Hrow & Hrun & Hevs).
      injection Hevs as <- <-.
      destruct l as [|[|[|[|[|]]]]]; simplify_eq/=.
      split_and!; try done. exists 1%nat, d2. split_and!; try done; [lia|].
      exists w2, w3. rewrite Hrun. by split_and!.
    + intros ? ?. rewrite !elem_of_cons, !elem_of_nil.
      split; intros [?|[?|[?|[?|?]]]]; done.
    + intros _. reflexivity.
Qed.

Lemma C8_ack_after_write_and_issue_witness :
  let w := uploaded_world [] in
  let evs := new_events (handleProcessing documentsService (about "doc-1")) w in
  evs !! 2%nat = Some (Emitted DOCUMENT_VALIDATION "doc-1") ∧
  ∃ j d2, (j < 2)%nat ∧
    evs !! j = Some (Saved d2) ∧
    status d2 = VALIDATED ∧
    ∃ w2 w3,
      DocumentsService.update "doc-1" (processing_done simulated) w2 = (inr d2, w3) ∧
      repo w3 !! "doc-1" = Some d2 ∧
      repo (handleProcessing documentsService (about "doc-1") w).2 !! "doc-1" = Some d2.
Proof.
  intros w evs. split; [reflexivity|].
  destruct (C8_ack_after_write_and_issue (about "doc-1") w) as (_ & Hissue & _).
  destruct (Hissue 2%nat DOCUMENT_VALIDATION "doc-1" eq_refl)
    as (_ & _ & j & d2 & Hj & Hsaved & Hst & Hid & _ & w2 & w3 & Hu & Hrow & _ & _ & Hfinal).
  specialize (Hid (keyed_world_with _ _)). cbn in Hid.
  rewrite Hid in Hrow, Hfinal.
  exists j, d2. split_and!; [exact Hj|exact Hsaved|exact Hst|].
  exists w2, w3. split_and!; [exact Hu|exact Hrow|exact Hfinal].
Defined.

(* ===================================================================== *)
(** * The store write [update] *)

Definition not_found (k : string) : Exception :=
  NotFoundException ("Document with ID " +:+ k +:+ " not found").

(** A record deleted while the handler is suspended between its lookup and
    its update: the schedule is quiet for the lookup and deletes the row
    right before the next repository call. *)
Lemma deleted_before_update k (w : World) d rest :
  repo w !! k = Some d →
  env w = Quiet :: Remove k :: rest →
  ∀ dto,
    (d0 ← DocumentsService.findOne k; DocumentsService.update k (dto d0)) w
    = (inl (not_found k),
       {| repo := delete k (repo w); env := rest; clock := clock w;
          trace := trace w |}).
Proof.
  intros Hd He dto.
  unfold DocumentsService.update, DocumentsService.findOne, repository_findOne,
    store_access, gets, throw, mbind, M_bind, mret, M_ret.
  rewrite He. cbn. rewrite Hd. cbn. rewrite lookup_delete_eq. reflexivity.
Qed.

(** C9.  [update] on an id without a record throws (a
    [NotFoundException], whenever the store answers the lookup), writes
    nothing and creates no record.  So when the record is deleted between
    the lookup of a handler and its update, the handler ends in its [catch]:
    the exception is logged and the message rejected with requeue, not
    acknowledged, and the record stays deleted.  The same holds for the
    processing handler when the record is deleted between its two updates:
    the first write is followed by the rejection. *)
Theorem C9_update_of_missing_record k dto data w :
  documentId data = k →
  (repo w !! k = None →
     (∃ e, (DocumentsService.update k dto w).1 = inl e ∧
           (head (env w) ≠ Some Fault → e = not_found k)) ∧
     new_events (DocumentsService.update k dto) w = [] ∧
     repo (DocumentsService.update k dto w).2 ⊆ repo w ∧
     repo (DocumentsService.update k dto w).2 !! k = None) ∧
  (∀ d rest,
     repo w !! k = Some d →
     env w = Quiet :: Remove k :: rest →
     new_events (handleProcessing documentsService data) w
       = [LoggedError (not_found k); Nack false true] ∧
     new_events (handleValidation documentsService data) w
       = [LoggedError (not_found k); Nack false true] ∧
     repo (handleProcessing documentsService data w).2 !! k = None ∧
     repo (handleValidation documentsService data w).2 !! k = None) ∧
  (∀ d rest,
     repo w !! k = Some d →
     env w = Quiet :: Quiet :: Quiet :: Remove k :: rest →
     new_events (handleProcessing documentsService data) w
       = [Saved (with_updatedAt (clock w) (Object_assign d processing_started));
          LoggedError (not_found k); Nack false true] ∧
     repo (handleProcessing documentsService data w).2 !! k = None).
Proof.
  intros <-. set (k := documentId data). split_and!.
  - intros Hnone.
    destruct (DocumentsService.update k dto w) as [r w'] eqn:Hu.
    pose proof Hu as Hu'. apply update_spec in Hu' as [Hm _].
    destruct r as [e|d'].
    + destruct Hm as [Hs Hwhy]. cbn [fst snd].
      assert (repo w' ⊆ repo w) as Hsub by (by destruct Hs as (_ & _ & ? & _)).
      split_and!.
      * exists e. split; [done|]. intros Hhead.
        unfold DocumentsService.update, mbind, M_bind in Hu.
        destruct (DocumentsService.findOne k w) as [[e0|d0] w0] eqn:Hf.
        -- simplify_eq. apply findOne_spec in Hf as (_ & [[_ ?]|[? _]] & _); done.
        -- apply findOne_spec in Hf as ((_ & _ & Hsub0 & _) & Hr & _).
           pose proof (lookup_weaken _ _ _ _ Hr Hsub0). congruence.
      * apply new_events_app. rewrite Hu. cbn.
        rewrite (env_step_trace _ _ Hs). by rewrite app_nil_r.
      * done.
      * destruct (repo w' !! k) as [d'|] eqn:Hl; [|done].
        pose proof (lookup_weaken _ _ _ _ Hl Hsub). congruence.
    + destruct Hm as (_ & d & _ & Hl & _). congruence.
  - intros d rest Hd He.
    pose proof (deleted_before_update k w d rest Hd He) as Hdel.
    assert (handleProcessing documentsService data w
            = (inr tt, {| repo := delete k (repo w); env := rest; clock := clock w;
                          trace := (trace w ++ [LoggedError (not_found k)])
                                   ++ [Nack false true] |})) as Hp.
    { unfold handleProcessing, try_catch.
      cbn [api_findOne api_update documentsService]. fold k.
      specialize (Hdel (λ _, processing_started)).
      unfold mbind, M_bind, mret, M_ret in *.
      destruct (DocumentsService.findOne k w) as [[e0|d0] w0]; [by simplify_eq|].
      fold processing_started. by rewrite Hdel. }
    assert (handleValidation documentsService data w
            = (inr tt, {| repo := delete k (repo w); env := rest; clock := clock w;
                          trace := (trace w ++ [LoggedError (not_found k)])
                                   ++ [Nack false true] |})) as Hv.
    { rewrite handleValidation_unfold. fold k. unfold try_catch.
      specialize (Hdel verdict).
      unfold mbind, M_bind, mret, M_ret in *.
      destruct (DocumentsService.findOne k w) as [[e0|d0] w0]; [by simplify_eq|].
      by rewrite Hdel. }
    rewrite Hp, Hv. cbn [snd repo].
    split_and!; try apply lookup_delete_eq;
      apply new_events_app; rewrite ?Hp, ?Hv; cbn; by rewrite <- app_assoc.
  - intros d rest Hd He.
    assert (handleProcessing documentsService data w
            = (inr tt,
               {| repo := delete k (<[id d := with_updatedAt (clock w)
                                        (Object_assign d processing_started)]> (repo w));
                  env := rest; clock := clock w + 1;
                  trace := ((trace w ++ [Saved (with_updatedAt (clock w)
                                           (Object_assign d processing_started))])
                            ++ [LoggedError (not_found k)])
                           ++ [Nack false true] |})) as Hp.
    { unfold handleProcessing, try_catch.
      cbn [api_findOne api_update api_simulateOCR documentsService]. fold k.
      unfold DocumentsService.update, DocumentsService.findOne,
        DocumentsService.simulateOCR, repository_findOne, repository_save,
        store_access, gets, write_row, throw, mbind, M_bind, mret, M_ret.
      rewrite He. cbn. rewrite Hd. cbn. rewrite Hd. cbn.
      rewrite lookup_delete_eq. reflexivity. }
    rewrite Hp. cbn [snd repo]. split; [|apply lookup_delete_eq].
    apply new_events_app. rewrite Hp. cbn. by rewrite <- !app_assoc.
Qed.

Lemma C9_update_of_missing_record_witness :
  (∃ e, (DocumentsService.update "doc-2" no_fields (uploaded_world [])).1 = inl e ∧
        e = not_found "doc-2") ∧
  new_events (handleValidation documentsService (about "doc-1"))
             (uploaded_world [Quiet; Remove "doc-1"])
    = [LoggedError (not_found "doc-1"); Nack false true] ∧
  new_events (handleProcessing documentsService (about "doc-1"))
             (uploaded_world [Quiet; Remove "doc-1"])
    = [LoggedError (not_found "doc-1"); Nack false true].
Proof.
  split.
  - destruct (C9_update_of_missing_record "doc-2" no_fields (about "doc-2")
                (uploaded_world []) eq_refl) as (Hmiss & _ & _).
    destruct (Hmiss eq_refl) as ((e & He & Hnf) & _).
    exists e. split; [exact He|]. apply Hnf. discriminate.
  - destruct (C9_update_of_missing_record "doc-1" no_fields (about "doc-1")
                (uploaded_world [Quiet; Remove "doc-1"]) eq_refl) as (_ & Hrace & _).
    destruct (Hrace invoice [] eq_refl eq_refl) as (Hp & Hv & _).
    split; [exact Hv|exact Hp].
Defined.

(** C10.  [update] on an existing record: whenever it succeeds, the record
    it returns and stores differs from the one found only in the fields the
    partial update names and in [updatedAt]; [id], [createdAt] and every
    field not named are the old ones, and the rows under other keys are not
    written.  With the store answering it always succeeds. *)
Theorem C10_update_changes_named_fields_only k dto w d :
  repo w !! k = Some d →
  keyed (repo w) →
  (∀ d' w', DocumentsService.update k dto w = (inr d', w') →
     d' = with_updatedAt (clock w) (Object_assign d dto) ∧
     repo w' !! k = Some d' ∧
     new_events (DocumentsService.update k dto) w = [Saved d'] ∧
     id d' = id d ∧
     createdAt d' = createdAt d ∧
     (dto_filename dto = None → filename d' = filename d) ∧
     (dto_path dto = None → path d' = path d) ∧
     (dto_status dto = None → status d' = status d) ∧
     (dto_ocr_text dto = None → ocr_text d' = ocr_text d) ∧
     (dto_ocr_confidence dto = None → ocr_confidence d' = ocr_confidence d) ∧
     (dto_ocr_language dto = None → ocr_language d' = ocr_language d) ∧
     (dto_validation_errors dto = None → validation_errors d' = validation_errors d) ∧
     (∀ k' d0, k' ≠ k → repo w' !! k' = Some d0 → repo w !! k' = Some d0)) ∧
  (quiescent (env w) →
     ∃ d' w', DocumentsService.update k dto w = (inr d', w') ∧
              ∀ k', k' ≠ k → repo w' !! k' = repo w !! k').
Proof.
  intros Hd Hk. pose proof (Hk _ _ Hd) as Hid. cbn in Hid. split.
  - intros d' w' Hu. pose proof Hu as Hu'. apply update_spec in Hu' as [Hm _].
    destruct Hm as (w1 & d0 & (_ & _ & Hsub & _) & Hl & -> & Hrepo & Htr & _).
    assert (d0 = d) as -> by congruence.
    rewrite Hid in Hrepo.
    split_and!; try reflexivity.
    + rewrite Hrepo. apply lookup_insert_eq.
    + apply new_events_app. rewrite Hu. exact Htr.
    + cbn. by intros ->.
    + cbn. by intros ->.
    + cbn. by intros ->.
    + cbn. by intros ->.
    + cbn. by intros ->.
    + cbn. by intros ->.
    + cbn. by intros ->.
    + intros k' d0 Hne. rewrite Hrepo, lookup_insert_ne by done.
      intros Hl'. eapply lookup_weaken; eauto.
  - intros Hq.
    destruct (update_quiescent k dto w d Hq Hd) as (w2 & Hu & Hrepo & _).
    eexists _, w2. split; [exact Hu|].
    intros k' Hne. rewrite Hrepo, Hid. by apply lookup_insert_ne.
Qed.

Lemma C10_update_changes_named_fields_only_witness :
  ∃ d' w',
    DocumentsService.update "doc-1" processing_started processed_world = (inr d', w') ∧
    repo w' !! "doc-1" = Some d' ∧
    status d' = PROCESSING ∧
    id d' = "doc-1" ∧
    filename d' = "invoice.pdf" ∧
    path d' = "3f2a.pdf" ∧
    ocr_text d' = Some "This is a simulated OCR result." ∧
    ocr_confidence d' = Some (Finite 0.98%Q) ∧
    ocr_language d' = Some "en" ∧
    validation_errors d' = None.
Proof.
  destruct (C10_update_changes_named_fields_only "doc-1" processing_started
              processed_world processed_invoice eq_refl (keyed_world_with _ _))
    as [Hframe Hruns].
  destruct Hruns as (d' & w' & Hu & _); [constructor|].
  destruct (Hframe d' w' Hu)
    as (_ & Hl & _ & Hi & _ & Hf & Hp & _ & Ht & Hc & Hg & Hv & _).
  exists d', w'. split_and!; try done.
  - by injection Hu as <- _.
  - by rewrite Hf.
  - by rewrite Hp.
  - by rewrite Ht.
  - by rewrite Hc.
  - by rewrite Hg.
  - by rewrite Hv.
Defined.

(* ===================================================================== *)
(** * [validation_errors] and [FAILED] *)

(** The store states the pipeline can bring about: uploads, the two
    handlers on any event, under any behaviour of the rest of the system. *)
Inductive pipeline_step : World → World → Prop :=
  | step_upload file uuid w :
      repo w !! uuid = None →
      pipeline_step w (DocumentsService.uploadFile file uuid w).2
  | step_processing data w :
      pipeline_step w (handleProcessing documentsService data w).2
  | step_validation data w :
      pipeline_step w (handleValidation documentsService data w).2
  | step_schedule schedule w :
      pipeline_step w (set_env schedule w).

Definition reachable (w : World) : Prop := rtc pipeline_step empty_world w.

Definition errors_iff_failed (w : World) : Prop :=
  ∀ k d, repo w !! k = Some d →
         (validation_errors d ≠ None ↔ status d = FAILED).

(** Every write of the validation handler sets the two fields together. *)
Lemma verdict_sets_both d dto_target :
  let d' := Object_assign dto_target (verdict d) in
  validation_errors d' ≠ None ↔ status d' = FAILED.
Proof.
  cbn. unfold verdict. by destruct (negb _); cbn.
Qed.

(** The writes of the processing handler carry the old
    [validation_errors] along. *)
Lemma processing_keeps_validation_errors d ocrResult :
  validation_errors (Object_assign d processing_started) = validation_errors d ∧
  validation_errors (Object_assign d (processing_done ocrResult))
    = validation_errors d ∧
  status (Object_assign d (processing_done ocrResult)) = VALIDATED.
Proof. done. Qed.

Definition scan : DocumentsService.MulterFile :=
  {| DocumentsService.originalname := "invoice.pdf";
     DocumentsService.multer_filename := "3f2a.pdf";
     DocumentsService.mimetype := "application/pdf";
     DocumentsService.size := 2048 |}.

(** Upload, then a [validation] event handled before any extraction, then
    a [processing] event for the same record (a retry of the failed
    document). *)
Definition retried_world : World :=
  let w1 := (DocumentsService.uploadFile (Some scan) "doc-1" empty_world).2 in
  let w2 := (handleValidation documentsService (about "doc-1") w1).2 in
  (handleProcessing documentsService (about "doc-1") w2).2.

(** C6.  The claim asks that [validation_errors] be non-null exactly for
    [FAILED] records and that every transition to [VALIDATED] clear it.  The
    processing handler sets [VALIDATED] without clearing it: on a record
    that failed validation and is processed again, the store ends with
    status [VALIDATED] and the old error text. *)
Theorem C6_validated_record_keeps_errors :
  reachable retried_world ∧
  ¬ errors_iff_failed retried_world ∧
  ∃ d, repo retried_world !! "doc-1" = Some d ∧
       status d = VALIDATED ∧
       validation_errors d
         = Some "Expected string, received null,Expected number, received null,Expected string, received null".
Proof.
  assert (∃ d, repo retried_world !! "doc-1" = Some d ∧
       status d = VALIDATED ∧
       validation_errors d
         = Some "Expected string, received null,Expected number, received null,Expected string, received null")
    as Hd by (eexists; split_and!; reflexivity).
  split_and!; [| |exact Hd].
  - unfold reachable, retried_world.
    eapply rtc_r; [|apply step_processing].
    eapply rtc_r; [|apply step_validation].
    eapply rtc_r; [apply rtc_refl|].
    by apply (step_upload (Some scan) "doc-1").
  - destruct Hd as (d & Hl & Hst & Herr). intros Hinv.
    destruct (Hinv _ _ Hl) as [Hfail _].
    rewrite Hst, Herr in Hfail. by specialize (Hfail ltac:(done)).
Qed.

(* ===================================================================== *)
(** * The rest of the service and the HTTP controller *)

(** ** create-document.dto.ts

    [filename], [path] and [status] are required; the other properties are
    optional, and an absent one leaves its column NULL. *)
Record CreateDocumentDto := mkCreate {
  new_filename : string;
  new_path : string;
  new_status : DocumentStatus;
  new_ocr_text : option string;
  new_ocr_confidence : option number;
  new_ocr_language : option string;
  new_validation_errors : option string
}.

(** [DocumentsService.create]:
    [repository.save(repository.create(createDocumentDto))].  As in
    [repository_insert], [uuid] is the key the database generates. *)
Definition DocumentsService_create (createDocumentDto : CreateDocumentDto)
  (uuid : string) : M Document :=
  store_access ;;
  now ← gets clock;
  let saved := {| id := uuid;
                  filename := new_filename createDocumentDto;
                  path := new_path createDocumentDto;
                  status := new_status createDocumentDto;
                  ocr_text := new_ocr_text createDocumentDto;
                  ocr_confidence := new_ocr_confidence createDocumentDto;
                  ocr_language := new_ocr_language createDocumentDto;
                  validation_errors := new_validation_errors createDocumentDto;
                  createdAt := now; updatedAt := now |} in
  write_row saved ;;
  mret saved.

(** ** documents.controller.ts: the routes hand over to the service. *)
Module DocumentsController.

Definition create (createDocumentDto : CreateDocumentDto) (uuid : string)
  : M Document :=
  DocumentsService_create createDocumentDto uuid.

Definition findOne (k : string) : M Document := DocumentsService.findOne k.

Definition update (k : string) (updateDocumentDto : UpdateDocumentDto)
  : M Document :=
  DocumentsService.update k updateDocumentDto.

Definition remove (k : string) : M unit := DocumentsService.remove k.

Definition uploadFile (file : option DocumentsService.MulterFile)
  (uuid : string) : M Document :=
  match file with
  | None => throw (BadRequestException "No file uploaded")
  | Some file => DocumentsService.uploadFile (Some file) uuid
  end.

End DocumentsController.

(** The record [uploadFile] stores for [file] at time [now]. *)
Definition uploaded_record (uuid : string) (file : DocumentsService.MulterFile)
  (now : Z) : Document :=
  {| id := uuid; filename := DocumentsService.originalname file;
     path := DocumentsService.multer_filename file; status := UPLOADED;
     ocr_text := None; ocr_confidence := None; ocr_language := None;
     validation_errors := None; createdAt := now; updatedAt := now |}.

(** The three checks of [uploadFile] that precede every side effect. *)
Definition acceptable (file : option DocumentsService.MulterFile) : Prop :=
  ∃ f, file = Some f ∧
       DocumentsService.mimetype f ∈ ALLOWED_MIME_TYPES ∧
       DocumentsService.size f ≤ MAX_FILE_SIZE.


(** A message delivered again and again; [schedules] gives, per delivery,
    what the rest of the system does during it. *)
Fixpoint redeliver (handler : Payload → M unit) (data : Payload)
  (schedules : list (list EnvAction)) (w : World) : World :=
  match schedules with
  | [] => w
  | schedule :: rest =>
      redeliver handler data rest (handler data (set_env schedule w)).2
  end.

Definition is_settlement (ev : Event) : bool :=
  match ev with Ack | Nack _ _ => true | _ => false end.

Definition is_ack (ev : Event) : bool :=
  match ev with Ack => true | _ => false end.

Definition is_requeue (ev : Event) : bool :=
  match ev with Nack false true => true | _ => false end.

Definition count (f : Event → bool) (evs : list Event) : nat :=
  length (List.filter f evs).

(** The three extraction fields are set together or not at all. *)
Definition extraction_absent (d : Document) : Prop :=
  ocr_text d = None ∧ ocr_confidence d = None ∧ ocr_language d = None.

Definition extraction_present (d : Document) : Prop :=
  is_Some (ocr_text d) ∧
  (∃ c, ocr_confidence d = Some c ∧ c ≠ NaN) ∧
  is_Some (ocr_language d).

(** What the status of a record says about its other fields. *)
Definition lifecycle (d : Document) : Prop :=
  (extraction_absent d ∨ extraction_present d) ∧
  match status d with
  | UPLOADED => extraction_absent d ∧ validation_errors d = None
  | PROCESSING => True
  | VALIDATED => extraction_present d
  | FAILED => extraction_absent d ∧ is_Some (validation_errors d)
  end.

(** A property of every row of the store. *)
Definition store_inv (good : string → Document → Prop) (w : World) : Prop :=
  map_Forall good (repo w).

(* ===================================================================== *)
(** ** Invariants of the store, whatever the rest of the system does *)

Section StoreInvariant.

Variable good : string → Document → Prop.

Lemma store_inv_subseteq w w1 :
  repo w1 ⊆ repo w → store_inv good w → store_inv good w1.
Proof.
  unfold store_inv. intros Hsub Hinv k d Hd. apply (Hinv k d).
  eapply lookup_weaken; eauto.
Qed.

Lemma store_inv_env_step w w1 :
  env_step w w1 → store_inv good w → store_inv good w1.
Proof. intros (_ & _ & Hsub & _). by apply store_inv_subseteq. Qed.

Lemma store_inv_same_repo w w1 :
  repo w1 = repo w → store_inv good w → store_inv good w1.
Proof. unfold store_inv. by intros ->. Qed.

Lemma findOne_inv k w :
  store_inv good w →
  store_inv good (DocumentsService.findOne k w).2 ∧
  ∀ d, (DocumentsService.findOne k w).1 = inr d → good k d.
Proof.
  intros Hinv.
  destruct (DocumentsService.findOne k w) as [r w1] eqn:Hf.
  apply findOne_spec in Hf as (Hs & Hr & _). cbn [fst snd].
  pose proof (store_inv_env_step _ _ Hs Hinv) as Hinv1.
  split; [done|]. intros d ->. exact (Hinv1 _ _ Hr).
Qed.

Lemma update_inv k dto w :
  store_inv good w →
  (∀ t d, good k d → good (id d) (with_updatedAt t (Object_assign d dto))) →
  store_inv good (DocumentsService.update k dto w).2.
Proof.
  intros Hinv Hstep.
  destruct (DocumentsService.update k dto w) as [[e|d'] w2] eqn:Hu;
    apply update_spec in Hu as [Hm _]; cbn [snd].
  - destruct Hm as [Hs _]. by eapply store_inv_env_step.
  - destruct Hm as (w1 & d & Hs & Hl & -> & Hrepo & _).
    unfold store_inv. rewrite Hrepo. apply map_Forall_insert_2.
    + apply Hstep. exact (Hinv _ _ Hl).
    + by apply (store_inv_env_step _ _ Hs).
Qed.

Lemma remove_inv k w :
  store_inv good w → store_inv good (DocumentsService.remove k w).2.
Proof.
  intros Hinv. unfold DocumentsService.remove, mbind, M_bind.
  destruct (DocumentsService.findOne k w) as [[e|d] w1] eqn:Hf;
    apply findOne_spec in Hf as (Hs & _ & _); cbn [snd].
  - by eapply store_inv_env_step.
  - pose proof (store_inv_env_step _ _ Hs Hinv) as Hinv1.
    unfold repository_remove, delete_row, mbind, M_bind.
    destruct (store_access w1) as [[e|[]] w2] eqn:Ha;
      apply store_access_spec in Ha as (Hs2 & _); cbn [snd].
    + by eapply store_inv_env_step.
    + cbn. apply map_Forall_delete. by apply (store_inv_env_step _ _ Hs2).
Qed.

Lemma insert_inv (saved : Z → Document) w :
  store_inv good w →
  (∀ t, good (id (saved t)) (saved t)) →
  store_inv good
    ((store_access ;; now ← gets clock; write_row (saved now) ;; mret (saved now)) w).2.
Proof.
  intros Hinv Hnew. unfold gets, write_row, mbind, M_bind, mret, M_ret.
  destruct (store_access w) as [[e|[]] w1] eqn:Ha;
    apply store_access_spec in Ha as (Hs & _); cbn [snd].
  - by eapply store_inv_env_step.
  - cbn. apply map_Forall_insert_2; [apply Hnew|].
    by apply (store_inv_env_step _ _ Hs).
Qed.

Lemma create_inv dto uuid w :
  store_inv good w →
  (∀ d, id d = uuid → good uuid d) →
  store_inv good (DocumentsService_create dto uuid w).2.
Proof.
  intros Hinv Hnew. unfold DocumentsService_create.
  apply (insert_inv (λ now, mkDocument uuid _ _ _ _ _ _ _ now now)); [done|].
  intros t. by apply Hnew.
Qed.

Lemma uploadFile_inv file uuid w :
  store_inv good w →
  (∀ f t, file = Some f → good uuid (uploaded_record uuid f t)) →
  store_inv good (DocumentsService.uploadFile file uuid w).2.
Proof.
  intros Hinv Hnew. unfold DocumentsService.uploadFile.
  destruct file as [f|]; [|done].
  destruct (negb _); [done|]. destruct (bool_decide _); [done|].
  unfold try_catch.
  pose proof (insert_inv (uploaded_record uuid f) w Hinv (λ t, Hnew f t eq_refl))
    as Hins.
  unfold repository_insert, rabbitClient_emit, logger_error, log_event, throw.
  unfold uploaded_record in Hins.
  unfold gets, write_row, mbind, M_bind, mret, M_ret in *.
  destruct (store_access w) as [[e|[]] w1]; cbn in *; exact Hins.
Qed.

Lemma handleProcessing_inv data w :
  store_inv good w →
  (∀ t d dto, dto = processing_started ∨ dto = processing_done simulated →
     good (documentId data) d →
     good (id d) (with_updatedAt t (Object_assign d dto))) →
  store_inv good (handleProcessing documentsService data w).2.
Proof.
  intros Hinv Hstep. set (k := documentId data) in *.
  unfold handleProcessing, try_catch.
  cbn [api_findOne api_update api_simulateOCR api_emitValidationEvent documentsService].
  fold k. unfold mbind, M_bind, mret, M_ret.
  unfold logger_error, channel_nack, channel_ack,
    DocumentsService.emitValidationEvent, rabbitClient_emit, log_event.
  destruct (findOne_inv k w Hinv) as [Hinv1 _].
  destruct (DocumentsService.findOne k w) as [[e|d] w1]; cbn [snd] in Hinv1;
    [exact Hinv1|].
  pose proof (update_inv k processing_started w1 Hinv1
                (λ t d, Hstep t d _ (or_introl eq_refl))) as Hinv2.
  unfold processing_started in Hinv2.
  destruct (DocumentsService.update k _ w1) as [[e|d1] w2]; cbn [snd] in Hinv2;
    [exact Hinv2|].
  unfold DocumentsService.simulateOCR, mret, M_ret.
  pose proof (update_inv k (processing_done simulated) w2 Hinv2
                (λ t d, Hstep t d _ (or_intror eq_refl))) as Hinv3.
  unfold processing_done, simulated in Hinv3. cbn [text confidence language] in *.
  destruct (DocumentsService.update k _ w2) as [[e|d2] w3]; cbn [snd] in Hinv3;
    exact Hinv3.
Qed.

Lemma handleValidation_inv data w :
  store_inv good w →
  (∀ t d, good (documentId data) d →
     good (id d) (with_updatedAt t (Object_assign d (verdict d)))) →
  store_inv good (handleValidation documentsService data w).2.
Proof.
  intros Hinv Hstep. set (k := documentId data) in *.
  rewrite handleValidation_unfold. fold k.
  unfold try_catch, mbind, M_bind, mret, M_ret.
  unfold logger_error, channel_nack, channel_ack, log_event.
  destruct (DocumentsService.findOne k w) as [[e|d] w1] eqn:Hf;
    pose proof Hf as Hf'; apply findOne_spec in Hf' as (Hs & Hr & _).
  { exact (store_inv_env_step _ _ Hs Hinv). }
  pose proof (store_inv_env_step _ _ Hs Hinv) as Hinv1.
  destruct (DocumentsService.update k (verdict d) w1) as [[e|d'] w2] eqn:Hu;
    apply update_spec in Hu as [Hm _].
  { destruct Hm as [Hs2 _]. exact (store_inv_env_step _ _ Hs2 Hinv1). }
  destruct Hm as (w1' & d0 & Hs2 & Hl & -> & Hrepo & _).
  assert (d0 = d) as -> by congruence.
  cbn. unfold store_inv. rewrite Hrepo. apply map_Forall_insert_2.
  - apply Hstep. exact (Hinv1 _ _ Hr).
  - by apply (store_inv_env_step _ _ Hs2).
Qed.

End StoreInvariant.

(* ===================================================================== *)
(** ** Runs in which the store answers every call *)

Lemma store_access_answers w :
  quiescent (env w) →
  ∃ w1, store_access w = (inr tt, w1) ∧ repo w1 = repo w ∧
        clock w1 = clock w ∧ trace w1 = trace w ∧ quiescent (env w1).
Proof.
  intros Hq. destruct (store_access w) as [r w1] eqn:Ha.
  apply store_access_spec in Ha as ((Ht & Hc & _ & Hcalm & Hqq) & Hr & _).
  rewrite (Hr Hq). exists w1.
  destruct (Hcalm (quiescent_calm _ Hq)) as [Hrepo _].
  split_and!; auto.
Qed.

Lemma insert_quiescent (saved : Z → Document) w :
  quiescent (env w) →
  ∃ w',
    (store_access ;; now ← gets clock; write_row (saved now) ;; mret (saved now)) w
      = (inr (saved (clock w)), w') ∧
    repo w' = <[id (saved (clock w)) := saved (clock w)]> (repo w) ∧
    clock w' = clock w + 1 ∧
    trace w' = trace w ++ [Saved (saved (clock w))] ∧
    quiescent (env w').
Proof.
  intros Hq.
  destruct (store_access_answers w Hq) as (w1 & Ha & Hr & Hc & Ht & Hq1).
  unfold gets, write_row, mbind, M_bind, mret, M_ret. rewrite Ha. cbn.
  rewrite Hr, Hc, Ht. eauto 10.
Qed.

Lemma remove_quiescent k w d :
  quiescent (env w) →
  repo w !! k = Some d →
  ∃ w', DocumentsService.remove k w = (inr tt, w') ∧
        repo w' = delete (id d) (repo w) ∧
        clock w' = clock w ∧
        trace w' = trace w ++ [Removed (id d)] ∧
        quiescent (env w').
Proof.
  intros Hq Hd.
  destruct (findOne_quiescent k w d Hq Hd) as (w1 & Hf & Hr1 & Hc1 & Ht1 & Hq1).
  destruct (store_access_answers w1 Hq1) as (w2 & Ha & Hr2 & Hc2 & Ht2 & Hq2).
  unfold DocumentsService.remove, repository_remove, delete_row,
    mbind, M_bind.
  rewrite Hf, Ha. cbn. rewrite Hr2, Hr1, Hc2, Hc1, Ht2, Ht1. eauto 10.
Qed.

(* ===================================================================== *)
(** * Upload and creation *)

Definition archive : DocumentsService.MulterFile :=
  {| DocumentsService.originalname := "backup.zip";
     DocumentsService.multer_filename := "77c1.zip";
     DocumentsService.mimetype := "application/zip";
     DocumentsService.size := 2048 |}.

(** A text file of exactly the maximal size. *)
Definition largest : DocumentsService.MulterFile :=
  {| DocumentsService.originalname := "notes.txt";
     DocumentsService.multer_filename := "5d20.txt";
     DocumentsService.mimetype := "text/plain";
     DocumentsService.size := 10485760 |}.

Lemma repository_insert_quiescent uuid f w :
  quiescent (env w) →
  ∃ w',
    repository_insert uuid (DocumentsService.originalname f)
                      (DocumentsService.multer_filename f) UPLOADED w
      = (inr (uploaded_record uuid f (clock w)), w') ∧
    repo w' = <[uuid := uploaded_record uuid f (clock w)]> (repo w) ∧
    clock w' = clock w + 1 ∧
    trace w' = trace w ++ [Saved (uploaded_record uuid f (clock w))] ∧
    quiescent (env w').
Proof. intros Hq. exact (insert_quiescent (uploaded_record uuid f) w Hq). Qed.

(** X1.  A missing file, a MIME type outside the allowed list, or a size
    above the limit: [uploadFile] throws a [BadRequestException] before it
    touches anything; the world is the one it started from. *)
Theorem upload_rejected_before_any_effect file uuid w :
  ¬ acceptable file →
  ∃ msg, DocumentsService.uploadFile file uuid w = (inl (BadRequestException msg), w).
Proof.
  intros Hno. unfold DocumentsService.uploadFile.
  destruct file as [f|]; [|by eexists].
  destruct (decide (DocumentsService.mimetype f ∈ ALLOWED_MIME_TYPES)) as [Hm|Hm].
  - rewrite (bool_decide_eq_true_2 _ Hm). cbn [negb].
    destruct (decide (MAX_FILE_SIZE < DocumentsService.size f)) as [Hs|Hs].
    + rewrite (bool_decide_eq_true_2 _ Hs). by eexists.
    + exfalso. apply Hno. exists f. split_and!; [done|done|lia].
  - rewrite (bool_decide_eq_false_2 _ Hm). by eexists.
Qed.

Lemma upload_rejected_before_any_effect_witness :
  ∃ msg, DocumentsService.uploadFile (Some archive) "doc-7" (uploaded_world [Fault])
         = (inl (BadRequestException msg), uploaded_world [Fault]).
Proof.
  apply upload_rejected_before_any_effect.
  intros (f & [= <-] & Hm & _).
  exact (bool_decide_eq_false_1
           (DocumentsService.mimetype archive ∈ ALLOWED_MIME_TYPES) eq_refl Hm).
Defined.

(** X2.  An allowed MIME type and a size up to and including the limit,
    with the store answering: [uploadFile] stores a record in state
    [UPLOADED] named after the original file, pointing at the stored file,
    with no extraction fields and no errors; it returns that record, a
    lookup finds it, and exactly one [processing] event for its id is
    published, after the save. *)
Theorem upload_accepted f uuid w :
  DocumentsService.mimetype f ∈ ALLOWED_MIME_TYPES →
  DocumentsService.size f ≤ MAX_FILE_SIZE →
  quiescent (env w) →
  let d := uploaded_record uuid f (clock w) in
  ∃ w', DocumentsService.uploadFile (Some f) uuid w = (inr d, w') ∧
        repo w' = <[uuid := d]> (repo w) ∧
        new_events (DocumentsService.uploadFile (Some f) uuid) w
          = [Saved d; Emitted DOCUMENT_PROCESSING uuid] ∧
        (DocumentsService.findOne uuid w').1 = inr d.
Proof.
  intros Hm Hs Hq d.
  destruct (repository_insert_quiescent uuid f w Hq)
    as (w1 & Hins & Hrepo & Hcl & Htr & Hq1).
  assert (DocumentsService.uploadFile (Some f) uuid w
          = (inr d, {| repo := repo w1; env := env w1; clock := clock w1;
                       trace := trace w1 ++ [Emitted DOCUMENT_PROCESSING uuid] |}))
    as Hrun.
  { unfold DocumentsService.uploadFile.
    rewrite (bool_decide_eq_true_2 _ Hm). cbn [negb].
    rewrite bool_decide_eq_false_2 by lia.
    unfold try_catch, mbind, M_bind, mret, M_ret. rewrite Hins. reflexivity. }
  eexists. split; [exact Hrun|]. cbn [repo]. split_and!.
  - exact Hrepo.
  - apply new_events_app. rewrite Hrun. cbn. by rewrite Htr, <- app_assoc.
  - match goal with |- (DocumentsService.findOne uuid ?w2).1 = _ =>
      destruct (findOne_quiescent uuid w2 d) as (w3 & -> & _)
    end; [exact Hq1| |done].
    cbn. rewrite Hrepo. apply lookup_insert_eq.
Qed.

Lemma upload_accepted_witness :
  let d := uploaded_record "doc-7" largest 1 in
  ∃ w', DocumentsService.uploadFile (Some largest) "doc-7" (uploaded_world []) = (inr d, w') ∧
        repo w' = <["doc-7" := d]> (repo (uploaded_world [])) ∧
        new_events (DocumentsService.uploadFile (Some largest) "doc-7") (uploaded_world [])
          = [Saved d; Emitted DOCUMENT_PROCESSING "doc-7"] ∧
        (DocumentsService.findOne "doc-7" w').1 = inr d.
Proof.
  apply (upload_accepted largest "doc-7" (uploaded_world [])).
  - by apply (bool_decide_unpack _).
  - by apply (bool_decide_unpack _).
  - constructor.
Defined.






(* ===================================================================== *)
(** * Deleting and patching records *)

(** X5.  [remove] of an existing record, with the store answering: the
    row is gone and only that row; from then on a lookup and an update of
    that id throw [NotFoundException]. *)
Theorem remove_then_not_found k w d dto :
  quiescent (env w) →
  keyed (repo w) →
  repo w !! k = Some d →
  ∃ w',
    DocumentsService.remove k w = (inr tt, w') ∧
    repo w' = delete k (repo w) ∧
    new_events (DocumentsService.remove k) w = [Removed k] ∧
    (DocumentsService.findOne k w').1 = inl (not_found k) ∧
    (DocumentsService.update k dto w').1 = inl (not_found k) ∧
    (∀ k', k' ≠ k → repo w' !! k' = repo w !! k').
Proof.
  intros Hq Hk Hd. pose proof (Hk _ _ Hd) as Hid. cbn in Hid.
  destruct (remove_quiescent k w d Hq Hd) as (w' & Hrun & Hrepo & _ & Htr & Hq').
  rewrite Hid in *.
  assert (repo w' !! k = None) as Hnone by (rewrite Hrepo; apply lookup_delete_eq).
  assert ((DocumentsService.findOne k w').1 = inl (not_found k)) as Hfind.
  { destruct (DocumentsService.findOne k w') as [r w2] eqn:Hf.
    pose proof Hf as Hf'. apply findOne_spec in Hf' as ((_ & _ & Hsub & _) & Hr & _).
    destruct r as [e|d0]; cbn.
    - destruct Hr as [[_ Hhead]|[-> _]]; [|done].
      destruct (store_access_answers w' Hq') as (w3 & Ha & _).
      apply store_access_spec in Ha as (_ & _ & _).
      unfold quiescent in Hq'. destruct (env w') as [|a rest]; [done|].
      apply Forall_cons in Hq' as [-> _]. done.
    - pose proof (lookup_weaken _ _ _ _ Hr Hsub). congruence. }
  exists w'. split_and!; try done.
  - apply new_events_app. rewrite Hrun. exact Htr.
  - unfold DocumentsService.update, mbind, M_bind.
    by destruct (DocumentsService.findOne k w') as [[e|d0] w2]; simplify_eq/=.
  - intros k' Hne. rewrite Hrepo. by apply lookup_delete_ne.
Qed.

Lemma remove_then_not_found_witness :
  ∃ w',
    DocumentsService.remove "doc-1" (uploaded_world []) = (inr tt, w') ∧
    repo w' = delete "doc-1" (repo (uploaded_world [])) ∧
    (DocumentsService.findOne "doc-1" w').1 = inl (not_found "doc-1").
Proof.
  destruct (remove_then_not_found "doc-1" (uploaded_world []) invoice no_fields)
    as (w' & Hrun & Hrepo & _ & Hfind & _).
  - constructor.
  - apply keyed_world_with.
  - reflexivity.
  - by exists w'.
Defined.

(** X6.  [remove] of an id without a record: it throws (a
    [NotFoundException] whenever the store answers the lookup), removes
    nothing and leaves no trace; if nobody else deletes meanwhile the store
    is unchanged. *)
Theorem remove_of_missing_record k w :
  repo w !! k = None →
  (∃ e, (DocumentsService.remove k w).1 = inl e ∧
        (head (env w) ≠ Some Fault → e = not_found k)) ∧
  new_events (DocumentsService.remove k) w = [] ∧
  repo (DocumentsService.remove k w).2 ⊆ repo w ∧
  (calm (env w) → repo (DocumentsService.remove k w).2 = repo w).
Proof.
  intros Hnone. unfold new_events, DocumentsService.remove, mbind, M_bind.
  destruct (DocumentsService.findOne k w) as [[e|d] w1] eqn:Hf;
    apply findOne_spec in Hf as (Hs & Hr & _); cbn.
  - split_and!.
    + exists e. split; [done|]. intros Hh. by destruct Hr as [[_ ?]|[-> _]].
    + rewrite (env_step_trace _ _ Hs). by rewrite drop_all.
    + by destruct Hs as (_ & _ & ? & _).
    + by apply env_step_calm_repo.
  - destruct Hs as (_ & _ & Hsub & _).
    pose proof (lookup_weaken _ _ _ _ Hr Hsub). congruence.
Qed.

Lemma remove_of_missing_record_witness :
  (DocumentsService.remove "doc-2" (uploaded_world [])).1 = inl (not_found "doc-2") ∧
  repo (DocumentsService.remove "doc-2" (uploaded_world [])).2
    = repo (uploaded_world []).
Proof.
  destruct (remove_of_missing_record "doc-2" (uploaded_world []) eq_refl)
    as ((e & -> & He) & _ & _ & Hsame).
  split.
  - f_equal. apply He. discriminate.
  - apply Hsame. constructor.
Defined.



Lemma Object_assign_no_fields d : Object_assign d no_fields = d.
Proof. by destruct d. Qed.



(** X8.  An [update] with the empty object, with the store answering,
    succeeds and changes no column of the record, its [updatedAt] stamp
    possibly excepted; the record stays under its id and the other rows are
    untouched. *)
Theorem update_with_empty_object k w d :
  quiescent (env w) →
  keyed (repo w) →
  repo w !! k = Some d →
  ∃ d' w' t,
    DocumentsService.update k no_fields w = (inr d', w') ∧
    d' = with_updatedAt t d ∧
    repo w' !! k = Some d' ∧
    (∀ k', k' ≠ k → repo w' !! k' = repo w !! k').
Proof.
  intros Hq Hk Hd. pose proof (Hk _ _ Hd) as Hid. cbn in Hid.
  destruct (update_quiescent k no_fields w d Hq Hd) as (w' & Hrun & Hrepo & _).
  rewrite Object_assign_no_fields, Hid in *.
  exists (with_updatedAt (clock w) d), w', (clock w).
  split_and!; [done|done| |].
  - rewrite Hrepo. apply lookup_insert_eq.
  - intros k' Hne. rewrite Hrepo. by apply lookup_insert_ne.
Qed.

Lemma update_with_empty_object_witness :
  ∃ d' w' t,
    DocumentsService.update "doc-1" no_fields (uploaded_world []) = (inr d', w') ∧
    d' = with_updatedAt t invoice ∧
    repo w' !! "doc-1" = Some d'.
Proof.
  destruct (update_with_empty_object "doc-1" (uploaded_world []) invoice)
    as (d' & w' & t & Hrun & Hd' & Hrepo & _).
  - constructor.
  - apply keyed_world_with.
  - reflexivity.
  - by exists d', w', t.
Defined.



(* ===================================================================== *)
(** * What a handler tells the queue *)

(** A service double whose lookup resolves with [null], as a mocked
    [findOne] may. *)
Definition nullService : DocumentsServiceApi :=
  {| api_findOne := λ _, mret None;
     api_update := DocumentsService.update;
     api_simulateOCR := DocumentsService.simulateOCR;
     api_emitValidationEvent := DocumentsService.emitValidationEvent |}.

(** X10.  For any injected service: when the lookup resolves with [null],
    a handler acknowledges the message at once and does nothing else: no
    update, no extraction, no event; it ends in the world the lookup
    left, with the acknowledgment added. *)
Theorem null_lookup_acknowledged_at_once svc data w w1 :
  api_findOne svc (documentId data) w = (inr None, w1) →
  let acknowledged := {| repo := repo w1; env := env w1; clock := clock w1;
                         trace := trace w1 ++ [Ack] |} in
  handleProcessing svc data w = (inr tt, acknowledged) ∧
  handleValidation svc data w = (inr tt, acknowledged).
Proof.
  intros H.
  unfold handleProcessing, handleValidation, try_catch, mbind, M_bind.
  by rewrite H.
Qed.

Lemma null_lookup_acknowledged_at_once_witness :
  trace (handleProcessing nullService (about "doc-1") (uploaded_world [])).2 = [Ack] ∧
  trace (handleValidation nullService (about "doc-1") (uploaded_world [])).2 = [Ack].
Proof.
  destruct (null_lookup_acknowledged_at_once nullService (about "doc-1")
              (uploaded_world []) (uploaded_world []) eq_refl) as [-> ->].
  split; reflexivity.
Defined.

(* ===================================================================== *)
(** * Invariants of the store *)

(** Every step of the pipeline keeps a row property that uploads establish
    and the writes of the two handlers keep. *)
Lemma pipeline_step_inv (good : string → Document → Prop) w w' :
  (∀ uuid f t, good uuid (uploaded_record uuid f t)) →
  (∀ k t d dto, dto = processing_started ∨ dto = processing_done simulated →
     good k d → good (id d) (with_updatedAt t (Object_assign d dto))) →
  (∀ k t d, good k d → good (id d) (with_updatedAt t (Object_assign d (verdict d)))) →
  pipeline_step w w' → store_inv good w → store_inv good w'.
Proof.
  intros Hup Hproc Hval Hstep Hinv. destruct Hstep.
  - apply uploadFile_inv; [done|]. intros f t _. apply Hup.
  - apply handleProcessing_inv; [done|]. intros t d dto. apply Hproc.
  - apply handleValidation_inv; [done|]. apply Hval.
  - exact Hinv.
Qed.

Lemma lifecycle_uploaded uuid f t : lifecycle (uploaded_record uuid f t).
Proof. unfold lifecycle, extraction_absent. cbn. auto. Qed.

Lemma lifecycle_processing t d dto :
  dto = processing_started ∨ dto = processing_done simulated →
  lifecycle d → lifecycle (with_updatedAt t (Object_assign d dto)).
Proof.
  unfold lifecycle, extraction_absent, extraction_present.
  intros [->| ->] [Hall _]; cbn; [done|].
  assert (is_Some (Some "This is a simulated OCR result.")
          ∧ (∃ c, Some (Finite 0.98%Q) = Some c ∧ c ≠ NaN)
          ∧ is_Some (Some "en")) as Hpresent
    by (split_and!; eauto).
  split; [by right|done].
Qed.

Lemma lifecycle_validation t d :
  lifecycle d → lifecycle (with_updatedAt t (Object_assign d (verdict d))).
Proof.
  unfold lifecycle, extraction_absent, extraction_present, verdict,
    OCRResultSchema_safeParse, OCRResultSchema_issues.
  intros [[(Ht & Hc & Hl)|([x Ht] & (c & Hc & Hnan) & [l Hl])] _];
    rewrite Ht, Hc, Hl.
  - cbn. rewrite Ht, Hc, Hl. eauto 10.
  - destruct c as [q| |neg]; [|done|]; cbn; rewrite Ht, Hc, Hl;
      (split; [right|]; split_and!; eauto).
Qed.

Lemma reachable_lifecycle w :
  reachable w → store_inv (λ _ d, lifecycle d) w.
Proof.
  intros Hreach.
  refine (rtc_ind_r (λ w, store_inv (λ _ d, lifecycle d) w) empty_world _ _ w Hreach);
    [apply map_Forall_empty|].
  clear w Hreach. intros w1 w2 _ Hstep IH.
  eapply pipeline_step_inv; [| | |exact Hstep|exact IH]; cbn.
  - apply lifecycle_uploaded.
  - intros _ t d dto. apply lifecycle_processing.
  - intros _ t d. apply lifecycle_validation.
Qed.

(** Two stores the pipeline brings about from one upload: the record
    processed, and the record validated before any extraction. *)
Definition extracted_world : World :=
  (handleProcessing documentsService (about "doc-1")
     (DocumentsService.uploadFile (Some scan) "doc-1" empty_world).2).2.

Definition rejected_world : World :=
  (handleValidation documentsService (about "doc-1")
     (DocumentsService.uploadFile (Some scan) "doc-1" empty_world).2).2.

Lemma reachable_after_upload :
  reachable (DocumentsService.uploadFile (Some scan) "doc-1" empty_world).2.
Proof.
  eapply rtc_r; [apply rtc_refl|]. by apply (step_upload (Some scan) "doc-1").
Defined.

Lemma reachable_extracted : reachable extracted_world.
Proof.
  eapply rtc_r; [exact reachable_after_upload|]. apply step_processing.
Defined.

Lemma reachable_rejected : reachable rejected_world.
Proof.
  eapply rtc_r; [exact reachable_after_upload|]. apply step_validation.
Defined.

(** X14.  In every store the pipeline can bring about (uploads and handled
    events, under any behaviour of the store), the three extraction fields
    of a record are either all null or all set. *)
Theorem extraction_fields_go_together w k d :
  reachable w → repo w !! k = Some d →
  extraction_absent d ∨ extraction_present d.
Proof.
  intros Hreach Hd. by destruct (reachable_lifecycle w Hreach k d Hd).
Qed.

Lemma extraction_fields_go_together_witness :
  (∃ d, repo extracted_world !! "doc-1" = Some d ∧
        ocr_text d = Some "This is a simulated OCR result." ∧
        (extraction_absent d ∨ extraction_present d)) ∧
  (∃ d, repo rejected_world !! "doc-1" = Some d ∧
        ocr_text d = None ∧
        (extraction_absent d ∨ extraction_present d)).
Proof.
  split.
  - eexists. split; [reflexivity|]. split; [reflexivity|].
    apply (extraction_fields_go_together extracted_world "doc-1").
    + exact reachable_extracted.
    + reflexivity.
  - eexists. split; [reflexivity|]. split; [reflexivity|].
    apply (extraction_fields_go_together rejected_world "doc-1").
    + exact reachable_rejected.
    + reflexivity.
Defined.



(* ===================================================================== *)
(** * A message for a record that does not exist *)

Lemma absent_as_invariant k w :
  repo w !! k = None ↔ store_inv (λ k' _, k' ≠ k) w.
Proof.
  unfold store_inv. split.
  - intros Hnone k' d Hd ->. congruence.
  - intros Hinv. destruct (repo w !! k) as [d|] eqn:Hd; [|done].
    by destruct (Hinv k d Hd).
Qed.

Lemma missing_record_one_delivery data w :
  repo w !! documentId data = None →
  (∃ e, trace (handleProcessing documentsService data w).2
          = trace w ++ [LoggedError e; Nack false true]) ∧
  repo (handleProcessing documentsService data w).2 !! documentId data = None ∧
  (∃ e, trace (handleValidation documentsService data w).2
          = trace w ++ [LoggedError e; Nack false true]) ∧
  repo (handleValidation documentsService data w).2 !! documentId data = None.
Proof.
  intros Hnone. split_and!.
  - destruct (handleProcessing_run data w)
      as [e Ht _|e d d1 _ Hd _ _|d d1 d2 _ Hd _ _ _ _ _ _ _]; [eauto|congruence..].
  - apply absent_as_invariant, handleProcessing_inv;
      [by apply absent_as_invariant|].
    intros t d dto _ []. reflexivity.
  - destruct (handleValidation_run data w) as [e Ht _|d d' _ Hd _ _];
      [eauto|congruence].
  - apply absent_as_invariant, handleValidation_inv;
      [by apply absent_as_invariant|].
    intros t d []. reflexivity.
Qed.

Lemma redelivery_of_missing_record handler data schedules w :
  (∀ w0, repo w0 !! documentId data = None →
     (∃ e, trace (handler data w0).2 = trace w0 ++ [LoggedError e; Nack false true]) ∧
     repo (handler data w0).2 !! documentId data = None) →
  repo w !! documentId data = None →
  repo (redeliver handler data schedules w) !! documentId data = None ∧
  ∃ evs, trace (redeliver handler data schedules w) = trace w ++ evs ∧
         count is_ack evs = 0%nat ∧
         count is_requeue evs = length schedules ∧
         count is_settlement evs = length schedules.
Proof.
  intros Hone. revert w.
  induction schedules as [|schedule rest IH]; intros w Hnone; cbn [redeliver].
  - split; [done|]. exists []. by rewrite app_nil_r.
  - destruct (Hone (set_env schedule w) Hnone) as [[e Ht] Hnone1].
    destruct (IH _ Hnone1) as (Hgone & evs & Htr & Hack & Hre & Hset).
    split; [exact Hgone|].
    exists ([LoggedError e; Nack false true] ++ evs).
    split; [rewrite Htr, Ht; cbn; by rewrite <- app_assoc|].
    unfold count in *. rewrite !List.filter_app, !length_app, Hack, Hre, Hset.
    done.
Qed.

(** X16.  A message whose record does not exist is never acknowledged,
    however often it is delivered and whatever the store does meanwhile:
    each delivery, of a [processing] or of a [validation] event, ends in one
    rejection with requeue, and the record is not created on the way. *)
Theorem missing_record_is_requeued_for_ever data schedules w :
  repo w !! documentId data = None →
  let wp := redeliver (handleProcessing documentsService) data schedules w in
  let wv := redeliver (handleValidation documentsService) data schedules w in
  (repo wp !! documentId data = None ∧
   ∃ evs, trace wp = trace w ++ evs ∧
          count is_ack evs = 0%nat ∧
          count is_requeue evs = length schedules ∧
          count is_settlement evs = length schedules) ∧
  (repo wv !! documentId data = None ∧
   ∃ evs, trace wv = trace w ++ evs ∧
          count is_ack evs = 0%nat ∧
          count is_requeue evs = length schedules ∧
          count is_settlement evs = length schedules).
Proof.
  intros Hnone wp wv. split.
  - apply redelivery_of_missing_record; [|done].
    intros w0 H0. by destruct (missing_record_one_delivery data w0 H0) as (? & ? & _).
  - apply redelivery_of_missing_record; [|done].
    intros w0 H0. by destruct (missing_record_one_delivery data w0 H0) as (_ & _ & ? & ?).
Qed.

Lemma missing_record_is_requeued_for_ever_witness :
  let wp := redeliver (handleProcessing documentsService) (about "doc-2")
              [[]; [Fault]; [Quiet; Remove "doc-1"]] (uploaded_world []) in
  repo wp !! "doc-2" = None ∧
  ∃ evs, trace wp = trace (uploaded_world []) ++ evs ∧
         count is_ack evs = 0%nat ∧
         count is_requeue evs = 3%nat ∧
         count is_settlement evs = 3%nat.
Proof.
  destruct (missing_record_is_requeued_for_ever (about "doc-2")
              [[]; [Fault]; [Quiet; Remove "doc-1"]] (uploaded_world []) eq_refl)
    as [Hp _].
  exact Hp.
Defined.

(* ===================================================================== *)
(** * Handlers in sequence *)

Lemma verdict_keeps_extraction t d :
  extraction_fields (with_updatedAt t (Object_assign d (verdict d)))
  = extraction_fields d.
Proof. unfold verdict. by destruct (negb _). Qed.

Lemma verdict_of_written t d :
  verdict (with_updatedAt t (Object_assign d (verdict d))) = verdict d.
Proof.
  unfold verdict at 1 3.
  change (mkInput (ocr_text ?x) (ocr_confidence ?x) (ocr_language ?x))
    with (extraction_fields x).
  by rewrite verdict_keeps_extraction.
Qed.

Lemma verdict_idempotent t t' d :
  with_updatedAt t'
    (Object_assign (with_updatedAt t (Object_assign d (verdict d))) (verdict d))
  = with_updatedAt t' (Object_assign d (verdict d)).
Proof. unfold verdict. by destruct (negb _). Qed.

(** X17.  The validation handler, with the store answering, sets
    [status] and [validation_errors] and changes no other column, the
    [updatedAt] stamp possibly excepted: name, path, creation date and the
    extraction fields are the stored ones.  Handling the same [validation]
    event again changes no column of the record (again the stamp possibly
    excepted) and no other record. *)
Theorem validation_is_idempotent data w d :
  quiescent (env w) →
  keyed (repo w) →
  repo w !! documentId data = Some d →
  let k := documentId data in
  let w1 := (handleValidation documentsService data w).2 in
  let w2 := (handleValidation documentsService data w1).2 in
  ∃ d1 d2 t,
    repo w1 !! k = Some d1 ∧
    id d1 = id d ∧
    filename d1 = filename d ∧ path d1 = path d ∧
    ocr_text d1 = ocr_text d ∧ ocr_confidence d1 = ocr_confidence d ∧
    ocr_language d1 = ocr_language d ∧ createdAt d1 = createdAt d ∧
    repo w2 !! k = Some d2 ∧
    d2 = with_updatedAt t d1 ∧
    (∀ k', k' ≠ k → repo w2 !! k' = repo w !! k').
Proof.
  intros Hq Hk Hd k w1 w2. pose proof (Hk _ _ Hd) as Hid. cbn in Hid.
  destruct (handleValidation_quiescent data w d Hq Hd Hid)
    as (w1' & Hrun1 & _ & Hrepo1 & Hcl1 & Hq1).
  assert (w1 = w1') as -> by (subst w1; by rewrite Hrun1).
  fold k in Hrepo1.
  set (d1 := with_updatedAt (clock w) (Object_assign d (verdict d))) in *.
  assert (repo w1' !! k = Some d1) as Hd1 by (rewrite Hrepo1; apply lookup_insert_eq).
  destruct (handleValidation_quiescent data w1' d1 Hq1 Hd1 Hid)
    as (w2' & Hrun2 & _ & Hrepo2 & _).
  assert (w2 = w2') as -> by (subst w2; by rewrite Hrun2).
  fold k in Hrepo2. rewrite Hcl1 in Hrepo2.
  assert (with_updatedAt (clock w + 1) (Object_assign d1 (verdict d1))
          = with_updatedAt (clock w + 1) d1) as Hsame.
  { subst d1. rewrite verdict_of_written, verdict_idempotent.
    unfold verdict. by destruct (negb _). }
  rewrite Hsame in Hrepo2.
  exists d1, (with_updatedAt (clock w + 1) d1), (clock w + 1).
  split_and!; try done.
  - subst d1. unfold verdict. by destruct (negb _).
  - subst d1. unfold verdict. by destruct (negb _).
  - subst d1. unfold verdict. by destruct (negb _).
  - subst d1. unfold verdict. by destruct (negb _).
  - subst d1. unfold verdict. by destruct (negb _).
  - rewrite Hrepo2. apply lookup_insert_eq.
  - intros k' Hne. rewrite Hrepo2, Hrepo1, !lookup_insert_ne; done.
Qed.

Lemma validation_is_idempotent_witness :
  let w1 := (handleValidation documentsService (about "doc-1") (uploaded_world [])).2 in
  let w2 := (handleValidation documentsService (about "doc-1") w1).2 in
  ∃ d1 d2 t,
    repo w1 !! "doc-1" = Some d1 ∧
    status d1 = FAILED ∧
    repo w2 !! "doc-1" = Some d2 ∧
    d2 = with_updatedAt t d1.
Proof.
  destruct (validation_is_idempotent (about "doc-1") (uploaded_world []) invoice)
    as (d1 & d2 & t & Hd1 & _ & _ & _ & _ & _ & _ & _ & Hd2 & Heq & _).
  - constructor.
  - apply keyed_world_with.
  - reflexivity.
  - exists d1, d2, t. split_and!; [exact Hd1| |exact Hd2|exact Heq].
    cbv zeta in Hd1. by injection Hd1 as <-.
Defined.

(** X18.  Whatever a record looked like (any status, old errors, old or no
    extraction fields), once its [processing] event and then the
    [validation] event that follows have been handled, it is [VALIDATED],
    carries the extraction result and has no errors. *)
Theorem processing_then_validation data w d :
  quiescent (env w) →
  keyed (repo w) →
  repo w !! documentId data = Some d →
  let k := documentId data in
  let w1 := (handleProcessing documentsService data w).2 in
  let w2 := (handleValidation documentsService data w1).2 in
  ∃ d2,
    repo w2 !! k = Some d2 ∧
    status d2 = VALIDATED ∧
    validation_errors d2 = None ∧
    ocr_text d2 = Some (text simulated) ∧
    ocr_confidence d2 = Some (confidence simulated) ∧
    ocr_language d2 = Some (language simulated) ∧
    filename d2 = filename d ∧ path d2 = path d ∧ createdAt d2 = createdAt d ∧
    (∀ k', k' ≠ k → repo w2 !! k' = repo w !! k').
Proof.
  intros Hq Hk Hd k w1 w2. pose proof (Hk _ _ Hd) as Hid. cbn in Hid.
  destruct (handleProcessing_quiescent data w d Hq Hd Hid)
    as (w1' & Hrun1 & _ & Hrepo1 & _ & Hq1).
  assert (w1 = w1') as -> by (subst w1; by rewrite Hrun1).
  fold k in Hrepo1.
  set (d1 := with_updatedAt (clock w + 1) _) in *.
  assert (repo w1' !! k = Some d1) as Hd1 by (rewrite Hrepo1; apply lookup_insert_eq).
  destruct (handleValidation_quiescent data w1' d1 Hq1 Hd1 Hid)
    as (w2' & Hrun2 & _ & Hrepo2 & _).
  assert (w2 = w2') as -> by (subst w2; by rewrite Hrun2).
  fold k in Hrepo2.
  eexists. split; [rewrite Hrepo2; apply lookup_insert_eq|].
  split_and!; try reflexivity.
  intros k' Hne. rewrite Hrepo2, Hrepo1, !lookup_insert_ne; done.
Qed.

Lemma processing_then_validation_witness :
  let retry := world_with
                 {| id := "doc-1"; filename := "invoice.pdf"; path := "3f2a.pdf";
                    status := FAILED; ocr_text := None; ocr_confidence := None;
                    ocr_language := None; validation_errors := Some "unreadable";
                    createdAt := 0; updatedAt := 4 |} [] in
  let w1 := (handleProcessing documentsService (about "doc-1") retry).2 in
  let w2 := (handleValidation documentsService (about "doc-1") w1).2 in
  ∃ d2, repo w2 !! "doc-1" = Some d2 ∧ status d2 = VALIDATED ∧
        validation_errors d2 = None.
Proof.
  intros retry w1 w2.
  destruct (processing_then_validation (about "doc-1") retry
              {| id := "doc-1"; filename := "invoice.pdf"; path := "3f2a.pdf";
                 status := FAILED; ocr_text := None; ocr_confidence := None;
                 ocr_language := None; validation_errors := Some "unreadable";
                 createdAt := 0; updatedAt := 4 |})
    as (d2 & Hd2 & Hst & Herr & _).
  - constructor.
  - apply keyed_world_with.
  - reflexivity.
  - by exists d2.
Defined.

Lemma uploadFile_quiescent f uuid w :
  DocumentsService.mimetype f ∈ ALLOWED_MIME_TYPES →
  DocumentsService.size f ≤ MAX_FILE_SIZE →
  quiescent (env w) →
  ∃ w', DocumentsService.uploadFile (Some f) uuid w
          = (inr (uploaded_record uuid f (clock w)), w') ∧
        repo w' = <[uuid := uploaded_record uuid f (clock w)]> (repo w) ∧
        clock w' = clock w + 1 ∧
        trace w' = trace w ++ [Saved (uploaded_record uuid f (clock w));
                               Emitted DOCUMENT_PROCESSING uuid] ∧
        quiescent (env w').
Proof.
  intros Hm Hs Hq.
  destruct (repository_insert_quiescent uuid f w Hq)
    as (w1 & Hins & Hrepo & Hcl & Htr & Hq1).
  eexists. split.
  - unfold DocumentsService.uploadFile.
    rewrite (bool_decide_eq_true_2 _ Hm). cbn [negb].
    rewrite bool_decide_eq_false_2 by lia.
    unfold try_catch, mbind, M_bind, mret, M_ret. rewrite Hins. reflexivity.
  - cbn. split_and!; try done. by rewrite Htr, <- app_assoc.
Qed.

(** The record at the end of the pipeline, stamped [stamp]. *)
Definition validated_record (uuid : string) (f : DocumentsService.MulterFile)
  (uploaded stamp : Z) : Document :=
  {| id := uuid; filename := DocumentsService.originalname f;
     path := DocumentsService.multer_filename f; status := VALIDATED;
     ocr_text := Some (text simulated);
     ocr_confidence := Some (confidence simulated);
     ocr_language := Some (language simulated);
     validation_errors := None;
     createdAt := uploaded; updatedAt := stamp |}.

(** X19.  The whole pipeline, with the store answering: an accepted
    upload, its [processing] event and the [validation] event that follows
    leave exactly one new record, [VALIDATED], named after the uploaded
    file, created at the upload, with the extraction result and no errors.
    On the way the calls were, in this order: the save of the upload, the
    [processing] event issued, the save of [PROCESSING], the save of
    [VALIDATED] with the extraction fields, the [validation] event issued,
    an acknowledgment, the save of the validation handler, an
    acknowledgment. *)
Theorem upload_to_validated f uuid w :
  DocumentsService.mimetype f ∈ ALLOWED_MIME_TYPES →
  DocumentsService.size f ≤ MAX_FILE_SIZE →
  quiescent (env w) →
  let w1 := (DocumentsService.uploadFile (Some f) uuid w).2 in
  let w2 := (handleProcessing documentsService (about uuid) w1).2 in
  let w3 := (handleValidation documentsService (about uuid) w2).2 in
  ∃ t1 t2 t3,
    repo w3 = <[uuid := validated_record uuid f (clock w) t3]> (repo w) ∧
    trace w3 = trace w ++
      [Saved (uploaded_record uuid f (clock w));
       Emitted DOCUMENT_PROCESSING uuid;
       Saved (with_updatedAt t1
                (Object_assign (uploaded_record uuid f (clock w))
                               processing_started));
       Saved (validated_record uuid f (clock w) t2);
       Emitted DOCUMENT_VALIDATION uuid; Ack;
       Saved (validated_record uuid f (clock w) t3); Ack].
Proof.
  intros Hm Hs Hq w1 w2 w3.
  destruct (uploadFile_quiescent f uuid w Hm Hs Hq)
    as (w1' & Hrun1 & Hrepo1 & Hcl1 & Htr1 & Hq1).
  assert (w1 = w1') as -> by (subst w1; by rewrite Hrun1).
  destruct (handleProcessing_quiescent (about uuid) w1'
              (uploaded_record uuid f (clock w)) Hq1)
    as (w2' & Hrun2 & Htr2 & Hrepo2 & Hcl2 & Hq2);
    [rewrite Hrepo1; apply lookup_insert_eq|reflexivity|].
  assert (w2 = w2') as -> by (subst w2; by rewrite Hrun2).
  cbn [documentId about] in *. rewrite Hcl1 in *.
  set (d2 := with_updatedAt (clock w + 1 + 1) _) in *.
  destruct (handleValidation_quiescent (about uuid) w2' d2 Hq2)
    as (w3' & Hrun3 & Htr3 & Hrepo3 & _);
    [rewrite Hrepo2; apply lookup_insert_eq|reflexivity|].
  assert (w3 = w3') as -> by (subst w3; by rewrite Hrun3).
  cbn [documentId about] in *. rewrite Hcl2 in *.
  assert (with_updatedAt (clock w + 1 + 2) (Object_assign d2 (verdict d2))
          = validated_record uuid f (clock w) (clock w + 1 + 2)) as Hfinal
    by reflexivity.
  rewrite Hfinal in *.
  exists (clock w + 1), (clock w + 1 + 1), (clock w + 1 + 2). split.
  - rewrite Hrepo3, Hrepo2, Hrepo1, !insert_insert_eq. done.
  - rewrite Htr3, Htr2, Htr1, <- !app_assoc. reflexivity.
Qed.

Lemma upload_to_validated_witness :
  let w1 := (DocumentsService.uploadFile (Some scan) "doc-1" empty_world).2 in
  let w2 := (handleProcessing documentsService (about "doc-1") w1).2 in
  let w3 := (handleValidation documentsService (about "doc-1") w2).2 in
  ∃ stamp, repo w3 = {[ "doc-1" := validated_record "doc-1" scan 0 stamp ]}.
Proof.
  intros w1 w2 w3.
  destruct (upload_to_validated scan "doc-1" empty_world)
    as (_ & _ & stamp & Hrepo & _).
  - by apply (bool_decide_unpack _).
  - by apply (bool_decide_unpack _).
  - constructor.
  - exists stamp. exact Hrepo.
Defined.

(** X20.  A [validation] event for a record without extracted text, with
    the store answering: the record becomes [FAILED], its error text starts
    with the message about the text field, and the message is acknowledged.
    (The text is never empty when validation fails.) *)
Theorem validation_without_text data w d :
  quiescent (env w) →
  keyed (repo w) →
  repo w !! documentId data = Some d →
  ocr_text d = None →
  ∃ d' errors,
    repo (handleValidation documentsService data w).2 !! documentId data = Some d' ∧
    status d' = FAILED ∧
    validation_errors d' = Some errors ∧
    String.prefix "Expected string, received null" errors = true ∧
    errors ≠ "" ∧
    new_events (handleValidation documentsService data) w = [Saved d'; Ack].
Proof.
  intros Hq Hk Hd Htext.
  destruct (handleValidation_quiescent data w d Hq Hd (Hk _ _ Hd))
    as (w' & Hrun & Htr & Hrepo & _).
  rewrite Hrun. cbn [snd].
  eexists _, _. split; [rewrite Hrepo; apply lookup_insert_eq|].
  assert (verdict d
          = {| dto_filename := None; dto_path := None; dto_status := Some FAILED;
               dto_ocr_text := None; dto_ocr_confidence := None;
               dto_ocr_language := None;
               dto_validation_errors :=
                 Some (Some (join ","
                   (message <$> OCRResultSchema_issues (extraction_fields d)))) |})
    as Hv.
  { unfold verdict, OCRResultSchema_safeParse, extraction_fields.
    cbn [in_text in_confidence in_language]. rewrite Htext. reflexivity. }
  rewrite Hv. cbn. split_and!; try reflexivity.
  - unfold OCRResultSchema_issues. cbn. rewrite Htext.
    by destruct (ocr_confidence d) as [[q| |neg]|], (ocr_language d).
  - unfold OCRResultSchema_issues. cbn. rewrite Htext.
    by destruct (ocr_confidence d) as [[q| |neg]|], (ocr_language d).
  - apply new_events_app. rewrite Hrun. cbn [snd]. rewrite Htr, Hv. reflexivity.
Qed.

Lemma validation_without_text_witness :
  ∃ d' errors,
    repo (handleValidation documentsService (about "doc-1") (uploaded_world [])).2
      !! "doc-1" = Some d' ∧
    status d' = FAILED ∧
    validation_errors d' = Some errors ∧
    String.prefix "Expected string, received null" errors = true.
Proof.
  destruct (validation_without_text (about "doc-1") (uploaded_world []) invoice)
    as (d' & errors & Hd' & Hst & Herr & Hpre & _).
  - constructor.
  - apply keyed_world_with.
  - reflexivity.
  - reflexivity.
  - by exists d', errors.
Defined.

(* ===================================================================== *)
(** * What the processing handler stores *)




(** X22.  The processing handler, with the store answering, changes
    [status] and the three extraction fields and nothing else: name, path,
    creation date and, notably, [validation_errors] of the record are what
    they were, and no other record is written. *)
Theorem processing_leaves_the_rest data w d :
  quiescent (env w) →
  keyed (repo w) →
  repo w !! documentId data = Some d →
  let w' := (handleProcessing documentsService data w).2 in
  ∃ d2,
    repo w' !! documentId data = Some d2 ∧
    id d2 = id d ∧ filename d2 = filename d ∧ path d2 = path d ∧
    createdAt d2 = createdAt d ∧
    validation_errors d2 = validation_errors d ∧
    (∀ k', k' ≠ documentId data → repo w' !! k' = repo w !! k').
Proof.
  intros Hq Hk Hd w'.
  destruct (handleProcessing_quiescent data w d Hq Hd (Hk _ _ Hd))
    as (w1 & Hrun & _ & Hrepo & _).
  assert (w' = w1) as -> by (subst w'; by rewrite Hrun).
  eexists. split; [rewrite Hrepo; apply lookup_insert_eq|].
  split_and!; try reflexivity.
  intros k' Hne. rewrite Hrepo. by apply lookup_insert_ne.
Qed.

Lemma processing_leaves_the_rest_witness :
  ∃ d2,
    repo (handleProcessing documentsService (about "doc-1") (uploaded_world [])).2
      !! "doc-1" = Some d2 ∧
    filename d2 = "invoice.pdf" ∧ path d2 = "3f2a.pdf" ∧
    validation_errors d2 = None.
Proof.
  destruct (processing_leaves_the_rest (about "doc-1") (uploaded_world []) invoice)
    as (d2 & Hd2 & _ & Hf & Hp & _ & Hv & _).
  - constructor.
  - apply keyed_world_with.
  - reflexivity.
  - by exists d2.
Defined.
